(** * File_Sync_Service: a shallow embedding of the synchronization engine

    The Go sources modelled here are
    - backend/internal/models/models.go            (FileMetadata)
    - backend/internal/storage/filesystem_provider.go (FileSystemProvider)
    - backend/internal/engine/event_handler.go      (synchronization step)
    - backend/internal/engine/concurrency.go        (workers, debounce)
    - backend/internal/engine/utils.go              (side selection)
    - backend/internal/engine/state_management.go   (reconcile)
    - the engine file with NewSyncEngine, GetFileList, handleMissingFile,
      syncFile and syncDirectory (the worker-pool version of engine.go).

    Files on a side are a flat map from relative path to the file's state;
    a file's content is identified with its SHA-256 hex digest.  Times
    (time.Time and time.Duration) are integers counting nanoseconds, and
    the zero time is 0.  Go errors are values of [GoError]; the per-engine
    mutex [s.mu] is a flag of the state, and locking it while it is held
    blocks the goroutine ([Blocked]). *)

From Stdlib Require Import ZArith String Ascii Bool.
From stdpp Require Import base gmap strings list fin_maps.

Local Open Scope string_scope.

(* ------------------------------------------------------------------ *)
(** ** Data model (models.go) *)

Record FileMetadata := mkMeta {
  RelativePath : string;
  Hash : string;
  ModTime : Z
}.

(** The Go zero value [models.FileMetadata{}]. *)
Definition zeroMeta : FileMetadata := mkMeta "" "" 0%Z.

Abbreviation StateMap := (gmap string FileMetadata).

(** What the operating system holds at a relative path of one side. *)
Inductive FileState :=
| FileF (fhash : string) (fmtime : Z)
| DirF.

Abbreviation Disk := (gmap string FileState).

Inductive ErrKind := ENOENT | EISDIR | ENOTDIR | EACCES.

(** Go error values: an [*os.PathError], an [fmt.Errorf] with [%w]
    (a [*fmt.wrapError]) or a plain [errors.New]/[fmt.Errorf] value. *)
Inductive GoError :=
| PathError (op : string) (path : string) (err : ErrKind)
| WrapError (msg : string) (inner : GoError)
| PlainError (msg : string).

(** [os.IsNotExist]: [underlyingError] unwraps only [*PathError] (and
    link/syscall errors), never a [%w] wrapper. *)
Definition os_IsNotExist (e : GoError) : bool :=
  match e with
  | PathError _ _ ENOENT => true
  | _ => false
  end.

(** SHA-256 of the empty file, the content of a freshly created file. *)
Definition empty_hash : string :=
  "e3b0c44298fc1c149afbf4c8996fb92427ae41e4649b934ca495991b7852b855".

(* ------------------------------------------------------------------ *)
(** ** FileSystemProvider (filesystem_provider.go) *)

Module FS.

(** [metadataForAbsolute]: [os.Stat], then [hashFile]; reading a
    directory for hashing fails with EISDIR. *)
Definition GetMetadata (d : Disk) (rel : string) : FileMetadata + GoError :=
  match d !! rel with
  | None => inr (WrapError "error stating file" (PathError "stat" rel ENOENT))
  | Some DirF =>
      inr (WrapError "error computing hash"
             (WrapError "error reading file for hashing" (PathError "read" rel EISDIR)))
  | Some (FileF h t) => inl (mkMeta rel h t)
  end.

(** [GetReader]: [os.Open]; a directory opens, but its reads fail
    ([None] stands for such a handle). *)
Definition GetReader (d : Disk) (rel : string) : option string + GoError :=
  match d !! rel with
  | None => inr (WrapError "failed to open file" (PathError "open" rel ENOENT))
  | Some DirF => inl None
  | Some (FileF h _) => inl (Some h)
  end.

(** [GetWriter]: [os.Create] truncates or creates the file at time [now]. *)
Definition GetWriter (d : Disk) (rel : string) (now : Z) : Disk + GoError :=
  match d !! rel with
  | Some DirF => inr (WrapError "failed to create file" (PathError "open" rel EISDIR))
  | _ => inl (<[rel := FileF empty_hash now]> d)
  end.

(** [writerWithModTime.Close]: [os.Chtimes] unless the time is zero. *)
Definition writerClose (d : Disk) (rel : string) (mt : Z) : Disk :=
  if (mt =? 0)%Z then d
  else match d !! rel with
       | Some (FileF h _) => <[rel := FileF h mt]> d
       | _ => d
       end.

(** [k] lies at or below [rel]: what [os.RemoveAll] removes. *)
Definition under (rel k : string) : bool :=
  String.eqb k rel || String.prefix (rel ++ "/") k.

(** [DeleteFile]: [os.RemoveAll] succeeds also when nothing is there. *)
Definition DeleteFile (d : Disk) (rel : string) : Disk * option GoError :=
  (filter (fun kv : string * FileState => under rel kv.1 = false) d, None).

(** [EnsureDir]: [os.MkdirAll] fails on an existing non-directory. *)
Definition EnsureDir (d : Disk) (rel : string) : Disk * option GoError :=
  match d !! rel with
  | Some (FileF _ _) =>
      (d, Some (WrapError "failed to ensure directory" (PathError "mkdir" rel ENOTDIR)))
  | _ => (<[rel := DirF]> d, None)
  end.

End FS.

(* ------------------------------------------------------------------ *)
(** ** Events (fsnotify) and the engine state *)

(** fsnotify's [Op] bits. *)
Definition Create : Z := 1.
Definition Write : Z := 2.
Definition Remove : Z := 4.
Definition Rename : Z := 8.
Definition Chmod : Z := 16.

Definition has_op (op flag : Z) : bool := (Z.land op flag =? flag)%Z.

Record Event := mkEvent { Name : string; Op : Z }.

Record QueuedEvent := mkQE { raw : Event; qe_isLocal : bool; qe_relPath : string }.

Record Notification := mkNote {
  n_eventType : string; n_filePath : string; n_direction : string; n_message : string
}.

Record SyncEngine := mkEngine {
  localRoot : string;
  remoteRoot : string;
  localDisk : Disk;
  remoteDisk : Disk;
  localMap : StateMap;
  remoteMap : StateMap;
  watched : list string;                 (* directories added to the watcher *)
  mu_held : bool;                        (* s.mu *)
  isPaused : bool;
  hasCallback : bool;                    (* s.eventCallback != nil *)
  notifications : list Notification;     (* calls of s.eventCallback, in order *)
  copies : list (bool * string);         (* calls of copyFile: (source is local, path) *)
  clock : Z;                             (* time.Now() *)
  jobs : list QueuedEvent;               (* s.jobs *)
  perFileLocks : gmap string bool;       (* s.perFileLocks: held? *)
  pendingEvents : gmap string Z;
  debounceInterval : Z;
  stopped : bool                         (* s.stopCh closed *)
}.

Definition setLocalMap (m : StateMap) (s : SyncEngine) : SyncEngine :=
  mkEngine s.(localRoot) s.(remoteRoot) s.(localDisk) s.(remoteDisk) m s.(remoteMap)
    s.(watched) s.(mu_held) s.(isPaused) s.(hasCallback) s.(notifications) s.(copies)
    s.(clock) s.(jobs) s.(perFileLocks) s.(pendingEvents) s.(debounceInterval) s.(stopped).
Definition setRemoteMap (m : StateMap) (s : SyncEngine) : SyncEngine :=
  mkEngine s.(localRoot) s.(remoteRoot) s.(localDisk) s.(remoteDisk) s.(localMap) m
    s.(watched) s.(mu_held) s.(isPaused) s.(hasCallback) s.(notifications) s.(copies)
    s.(clock) s.(jobs) s.(perFileLocks) s.(pendingEvents) s.(debounceInterval) s.(stopped).
Definition setLocalDisk (d : Disk) (s : SyncEngine) : SyncEngine :=
  mkEngine s.(localRoot) s.(remoteRoot) d s.(remoteDisk) s.(localMap) s.(remoteMap)
    s.(watched) s.(mu_held) s.(isPaused) s.(hasCallback) s.(notifications) s.(copies)
    s.(clock) s.(jobs) s.(perFileLocks) s.(pendingEvents) s.(debounceInterval) s.(stopped).
Definition setRemoteDisk (d : Disk) (s : SyncEngine) : SyncEngine :=
  mkEngine s.(localRoot) s.(remoteRoot) s.(localDisk) d s.(localMap) s.(remoteMap)
    s.(watched) s.(mu_held) s.(isPaused) s.(hasCallback) s.(notifications) s.(copies)
    s.(clock) s.(jobs) s.(perFileLocks) s.(pendingEvents) s.(debounceInterval) s.(stopped).
Definition addWatched (p : string) (s : SyncEngine) : SyncEngine :=
  mkEngine s.(localRoot) s.(remoteRoot) s.(localDisk) s.(remoteDisk) s.(localMap) s.(remoteMap)
    (s.(watched) ++ [p]) s.(mu_held) s.(isPaused) s.(hasCallback) s.(notifications) s.(copies)
    s.(clock) s.(jobs) s.(perFileLocks) s.(pendingEvents) s.(debounceInterval) s.(stopped).
Definition setMu (b : bool) (s : SyncEngine) : SyncEngine :=
  mkEngine s.(localRoot) s.(remoteRoot) s.(localDisk) s.(remoteDisk) s.(localMap) s.(remoteMap)
    s.(watched) b s.(isPaused) s.(hasCallback) s.(notifications) s.(copies)
    s.(clock) s.(jobs) s.(perFileLocks) s.(pendingEvents) s.(debounceInterval) s.(stopped).
Definition setPaused (b : bool) (s : SyncEngine) : SyncEngine :=
  mkEngine s.(localRoot) s.(remoteRoot) s.(localDisk) s.(remoteDisk) s.(localMap) s.(remoteMap)
    s.(watched) s.(mu_held) b s.(hasCallback) s.(notifications) s.(copies)
    s.(clock) s.(jobs) s.(perFileLocks) s.(pendingEvents) s.(debounceInterval) s.(stopped).
Definition addNote (n : Notification) (s : SyncEngine) : SyncEngine :=
  mkEngine s.(localRoot) s.(remoteRoot) s.(localDisk) s.(remoteDisk) s.(localMap) s.(remoteMap)
    s.(watched) s.(mu_held) s.(isPaused) s.(hasCallback) (s.(notifications) ++ [n]) s.(copies)
    s.(clock) s.(jobs) s.(perFileLocks) s.(pendingEvents) s.(debounceInterval) s.(stopped).
Definition addCopy (c : bool * string) (s : SyncEngine) : SyncEngine :=
  mkEngine s.(localRoot) s.(remoteRoot) s.(localDisk) s.(remoteDisk) s.(localMap) s.(remoteMap)
    s.(watched) s.(mu_held) s.(isPaused) s.(hasCallback) s.(notifications) (s.(copies) ++ [c])
    s.(clock) s.(jobs) s.(perFileLocks) s.(pendingEvents) s.(debounceInterval) s.(stopped).
Definition setJobs (q : list QueuedEvent) (s : SyncEngine) : SyncEngine :=
  mkEngine s.(localRoot) s.(remoteRoot) s.(localDisk) s.(remoteDisk) s.(localMap) s.(remoteMap)
    s.(watched) s.(mu_held) s.(isPaused) s.(hasCallback) s.(notifications) s.(copies)
    s.(clock) q s.(perFileLocks) s.(pendingEvents) s.(debounceInterval) s.(stopped).
Definition setLocks (l : gmap string bool) (s : SyncEngine) : SyncEngine :=
  mkEngine s.(localRoot) s.(remoteRoot) s.(localDisk) s.(remoteDisk) s.(localMap) s.(remoteMap)
    s.(watched) s.(mu_held) s.(isPaused) s.(hasCallback) s.(notifications) s.(copies)
    s.(clock) s.(jobs) l s.(pendingEvents) s.(debounceInterval) s.(stopped).
Definition setPending (p : gmap string Z) (s : SyncEngine) : SyncEngine :=
  mkEngine s.(localRoot) s.(remoteRoot) s.(localDisk) s.(remoteDisk) s.(localMap) s.(remoteMap)
    s.(watched) s.(mu_held) s.(isPaused) s.(hasCallback) s.(notifications) s.(copies)
    s.(clock) s.(jobs) s.(perFileLocks) p s.(debounceInterval) s.(stopped).

(** [getStateMaps] and [getProviders] (utils.go): the source side is the
    side of the event, the destination side is the other one. *)
Definition sideMap (isLocal : bool) (s : SyncEngine) : StateMap :=
  if isLocal then s.(localMap) else s.(remoteMap).
Definition setSideMap (isLocal : bool) (m : StateMap) (s : SyncEngine) : SyncEngine :=
  if isLocal then setLocalMap m s else setRemoteMap m s.
Definition sideDisk (isLocal : bool) (s : SyncEngine) : Disk :=
  if isLocal then s.(localDisk) else s.(remoteDisk).
Definition setSideDisk (isLocal : bool) (d : Disk) (s : SyncEngine) : SyncEngine :=
  if isLocal then setLocalDisk d s else setRemoteDisk d s.

(** [getDirection] (utils.go). *)
Definition getDirection (isLocal : bool) : string :=
  if isLocal then "local_to_remote" else "remote_to_local".

(* ------------------------------------------------------------------ *)
(** ** The goroutine monad: state passing, and blocking on [s.mu] *)

Inductive Outcome (A : Type) :=
| Ret (a : A) (s : SyncEngine)
| Blocked (s : SyncEngine).
Arguments Ret {A} a s.
Arguments Blocked {A} s.

Definition M (A : Type) : Type := SyncEngine -> Outcome A.

Definition ret {A} (a : A) : M A := fun s => Ret a s.
Definition bind {A B} (m : M A) (k : A -> M B) : M B :=
  fun s => match m s with
           | Ret a s' => k a s'
           | Blocked s' => Blocked s'
           end.

Notation "'let*' x ':=' m 'in' k" := (bind m (fun x => k))
  (at level 200, x name, m at level 100, k at level 200).

Definition get : M SyncEngine := fun s => Ret s s.
Definition modify (f : SyncEngine -> SyncEngine) : M unit := fun s => Ret tt (f s).

(** [s.mu.Lock()] / [s.mu.Unlock()]: sync.RWMutex is not reentrant. *)
Definition lock_mu : M unit :=
  fun s => if s.(mu_held) then Blocked s else Ret tt (setMu true s).
Definition unlock_mu : M unit := modify (setMu false).

(** [s.mu.Lock(); defer s.mu.Unlock(); body] *)
Definition with_mu {A} (body : M A) : M A :=
  let* _ := lock_mu in
  let* r := body in
  let* _ := unlock_mu in
  ret r.

(** [if s.eventCallback != nil { s.eventCallback(...) }] *)
Definition emit (eventType path direction message : string) : M unit :=
  modify (fun s => if s.(hasCallback)
                   then addNote (mkNote eventType path direction message) s
                   else s).

Definition mapInsert (isLocal : bool) (rel : string) (m : FileMetadata) : M unit :=
  modify (fun s => setSideMap isLocal (<[rel := m]> (sideMap isLocal s)) s).
Definition mapDelete (isLocal : bool) (rel : string) : M unit :=
  modify (fun s => setSideMap isLocal (delete rel (sideMap isLocal s)) s).

(* ------------------------------------------------------------------ *)
(** ** copyFile (file_operations.go) *)

(** Every call is recorded in [copies]; the destination file is created
    (truncated) before the bytes are copied, and [writer.Close] runs also
    after a failed [io.Copy]. *)
Definition copyFile (srcIsLocal : bool) (rel : string) (modTime : Z) : M (option GoError) :=
  fun s0 =>
    let s := addCopy (srcIsLocal, rel) s0 in
    match FS.GetReader (sideDisk srcIsLocal s) rel with
    | inr e => Ret (Some (WrapError "failed to open source" e)) s
    | inl reader =>
        match FS.GetWriter (sideDisk (negb srcIsLocal) s) rel s.(clock) with
        | inr e => Ret (Some (WrapError "failed to open destination" e)) s
        | inl d1 =>
            match reader with
            | None =>
                Ret (Some (WrapError "failed to copy" (PathError "read" rel EISDIR)))
                    (setSideDisk (negb srcIsLocal) (FS.writerClose d1 rel modTime) s)
            | Some h =>
                Ret None
                    (setSideDisk (negb srcIsLocal)
                       (FS.writerClose (<[rel := FileF h s.(clock)]> d1) rel modTime) s)
            end
        end
    end.

(* ------------------------------------------------------------------ *)
(** ** Event source resolution (utils.go) *)

(** [filepath.Rel(root, target)] on clean absolute paths: ["."] for the
    root itself, the remainder below the root, and a path climbing out of
    the root (starting with [".."]) otherwise. *)
Definition filepath_Rel (root target : string) : string :=
  if String.eqb root target then "."
  else if String.prefix (root ++ "/") target
  then substring (String.length root + 1) (String.length target) target
  else "../" ++ target.

(** [determineEventSource] *)
Definition determineEventSource (localRoot remoteRoot absPath : string)
  : (bool * string) + GoError :=
  let rel := filepath_Rel localRoot absPath in
  if negb (String.prefix ".." rel) then inl (true, rel) else
  let rel := filepath_Rel remoteRoot absPath in
  if negb (String.prefix ".." rel) then inl (false, rel) else
  inr (PlainError ("unrecognized event source: " ++ absPath)).

(** [os.Stat(event.Name)] for a name resolved to [(isLocal, rel)]. *)
Definition os_Stat (isLocal : bool) (rel : string) (s : SyncEngine) : option FileState :=
  if String.eqb rel "." then Some DirF else sideDisk isLocal s !! rel.

(* ------------------------------------------------------------------ *)
(** ** The synchronization step (event_handler.go and the engine file) *)

(** [syncFileToDestination] *)
Definition syncFileToDestination (isLocal : bool) (rel : string) (meta : FileMetadata)
  : M (option GoError) :=
  let direction := getDirection isLocal in
  let* e := copyFile isLocal rel meta.(ModTime) in
  match e with
  | Some e => ret (Some (WrapError ("error syncing file " ++ rel) e))
  | None =>
      let* _ := mapInsert isLocal rel meta in
      let* _ := mapInsert (negb isLocal) rel meta in
      let* _ := emit "sync" rel direction ("File synced: " ++ rel) in
      ret None
  end.

(** [handleFileConflict] *)
Definition handleFileConflict (rel : string) (isLocal : bool) : M (option GoError) :=
  let* _ := emit "conflict" rel (getDirection isLocal)
              ("File conflict: " ++ rel ++ " (destination is newer)") in
  ret None.

(** [handleMissingFile]: takes [s.mu] itself. *)
Definition handleMissingFile (rel : string) (isLocal : bool) : M unit :=
  with_mu (
    let* _ := mapDelete isLocal rel in
    let* _ := mapDelete (negb isLocal) rel in
    let* _ := modify (fun s => setSideDisk (negb isLocal)
                                 (FS.DeleteFile (sideDisk (negb isLocal) s) rel).1 s) in
    emit "delete" rel (getDirection isLocal) ("File deleted: " ++ rel)).

(** The metadata comparison shared (as two textual copies) by [syncFile]
    and [handleWriteOrChmodEvent], after [GetMetadata] succeeded. *)
Definition compareAndSync (isLocal : bool) (rel : string) (srcMeta : FileMetadata)
  : M (option GoError) :=
  let* s := get in
  let '(dstMeta, existsInDst) :=
    match sideMap (negb isLocal) s !! rel with
    | Some m => (m, true)
    | None => (zeroMeta, false)
    end in
  if existsInDst && String.eqb srcMeta.(Hash) dstMeta.(Hash) then
    let* _ := mapInsert isLocal rel srcMeta in
    let* _ := mapInsert (negb isLocal) rel dstMeta in
    ret None
  else if negb existsInDst || (dstMeta.(ModTime) <? srcMeta.(ModTime))%Z then
    syncFileToDestination isLocal rel srcMeta
  else handleFileConflict rel isLocal.

(** [syncFile] (no lock taken). *)
Definition syncFile (ev : Event) (isLocal : bool) (rel : string) : M (option GoError) :=
  let* s := get in
  match FS.GetMetadata (sideDisk isLocal s) rel with
  | inr e =>
      if os_IsNotExist e then
        let* _ := handleMissingFile rel isLocal in ret None
      else ret (Some (WrapError ("error getting metadata for " ++ ev.(Name)) e))
  | inl srcMeta => compareAndSync isLocal rel srcMeta
  end.

(** [handleWriteOrChmodEvent]: the same procedure under [s.mu]. *)
Definition handleWriteOrChmodEvent (ev : Event) (isLocal : bool) (rel : string)
  : M (option GoError) :=
  with_mu (
    let* s := get in
    match FS.GetMetadata (sideDisk isLocal s) rel with
    | inr e =>
        if os_IsNotExist e then
          let* _ := handleMissingFile rel isLocal in ret None
        else ret (Some (WrapError ("error getting metadata for " ++ ev.(Name)) e))
    | inl srcMeta => compareAndSync isLocal rel srcMeta
    end).

(** [syncDirectory] *)
Definition syncDirectory (rel : string) (isLocal : bool) : M (option GoError) :=
  let* s := get in
  let '(d', e) := FS.EnsureDir (sideDisk (negb isLocal) s) rel in
  let* _ := modify (setSideDisk (negb isLocal) d') in
  match e with
  | Some e => ret (Some (WrapError ("failed to create directory " ++ rel) e))
  | None =>
      let meta := mkMeta rel "" s.(clock) in
      let* _ := mapInsert isLocal rel meta in
      let* _ := mapInsert (negb isLocal) rel meta in
      let* _ := emit "sync" rel (getDirection isLocal) ("Directory synced: " ++ rel) in
      ret None
  end.

(** [handleCreateEvent] *)
Definition handleCreateEvent (ev : Event) (isLocal : bool) (rel : string) : M (option GoError) :=
  let* s := get in
  match os_Stat isLocal rel s with
  | None => ret (Some (WrapError ("failed to stat " ++ ev.(Name)) (PathError "stat" ev.(Name) ENOENT)))
  | Some DirF =>
      let* _ := modify (addWatched ev.(Name)) in
      syncDirectory rel isLocal
  | Some (FileF _ _) => syncFile ev isLocal rel
  end.

(** [handleDeleteOrRenameEvent] *)
Definition handleDeleteOrRenameEvent (ev : Event) (isLocal : bool) (rel : string)
  : M (option GoError) :=
  with_mu (
    let '(eventType, message) :=
      if has_op ev.(Op) Rename then ("move", "File moved or renamed: " ++ rel)
      else ("delete", "File deleted: " ++ rel) in
    let* _ := mapDelete isLocal rel in
    let* _ := mapDelete (negb isLocal) rel in
    let* _ := modify (fun s => setSideDisk (negb isLocal)
                                 (FS.DeleteFile (sideDisk (negb isLocal) s) rel).1 s) in
    let* _ := emit eventType rel (getDirection isLocal) message in
    ret None).

(** [handleEvent] *)
Definition handleEvent (ev : Event) : M (option GoError) :=
  let* s := get in
  if s.(isPaused) then ret None else
  match determineEventSource s.(localRoot) s.(remoteRoot) ev.(Name) with
  | inr _ => ret None
  | inl (isLocal, rel) =>
      if has_op ev.(Op) Create then handleCreateEvent ev isLocal rel
      else if has_op ev.(Op) Remove || has_op ev.(Op) Rename then
        handleDeleteOrRenameEvent ev isLocal rel
      else if has_op ev.(Op) Write || has_op ev.(Op) Chmod then
        handleWriteOrChmodEvent ev isLocal rel
      else ret None
  end.

(* ------------------------------------------------------------------ *)
(** ** A concrete engine used by the examples *)

Definition sampleEngine (ld rd : Disk) (lm rm : StateMap) : SyncEngine :=
  mkEngine "/srv/local_data" "/srv/remote_data" ld rd lm rm [] false false true [] []
    1000%Z [] ∅ ∅ 0%Z false.

Definition conflictNote (rel : string) (isLocal : bool) : Notification :=
  mkNote "conflict" rel (getDirection isLocal)
    ("File conflict: " ++ rel ++ " (destination is newer)").

(** The kinds of event that reach the metadata comparison for a file:
    a create, or (no create, remove or rename and) a write or chmod. *)
Definition fileWriteKind (op : Z) : bool :=
  has_op op Create
  || (negb (has_op op Remove || has_op op Rename) && (has_op op Write || has_op op Chmod)).

(* ------------------------------------------------------------------ *)
(** ** Basic facts about the state and the monad *)

Lemma setMu_same (s : SyncEngine) : setMu s.(mu_held) s = s.
Proof. destruct s; reflexivity. Qed.

Lemma mu_held_addNote n s : (addNote n s).(mu_held) = s.(mu_held).
Proof. reflexivity. Qed.

Lemma setMu_addNote b n s : setMu b (addNote n s) = addNote n (setMu b s).
Proof. reflexivity. Qed.

Lemma setMu_setMu b c s : setMu b (setMu c s) = setMu b s.
Proof. reflexivity. Qed.

Lemma sideMap_setMu b isLocal s : sideMap isLocal (setMu b s) = sideMap isLocal s.
Proof. destruct isLocal; reflexivity. Qed.

Lemma sideDisk_setMu b isLocal s : sideDisk isLocal (setMu b s) = sideDisk isLocal s.
Proof. destruct isLocal; reflexivity. Qed.

Lemma with_mu_ret {A} (body : M A) s a s' :
  s.(mu_held) = false -> body (setMu true s) = Ret a s' ->
  with_mu body s = Ret a (setMu false s').
Proof.
  intros Hm Hb. unfold with_mu, bind, lock_mu. rewrite Hm, Hb. reflexivity.
Qed.

(** The conflict branch of the metadata comparison. *)
Lemma compareAndSync_conflict isLocal rel srcMeta dm s :
  sideMap (negb isLocal) s !! rel = Some dm ->
  srcMeta.(Hash) <> dm.(Hash) -> (srcMeta.(ModTime) <= dm.(ModTime))%Z ->
  compareAndSync isLocal rel srcMeta s
  = Ret None (if s.(hasCallback) then addNote (conflictNote rel isLocal) s else s).
Proof.
  intros Hd Hh Ht. unfold compareAndSync, bind, get. rewrite Hd. cbn.
  destruct (String.eqb_spec (Hash srcMeta) (Hash dm)); [congruence |]. cbn.
  replace (ModTime dm <? ModTime srcMeta)%Z with false by (symmetry; apply Z.ltb_ge; lia).
  reflexivity.
Qed.

(** [handleEvent] up to the dispatch, for an unpaused engine and a name
    that resolves to [(isLocal, P)]. *)
Lemma handleEvent_dispatch ev s isLocal P :
  s.(isPaused) = false ->
  determineEventSource s.(localRoot) s.(remoteRoot) ev.(Name) = inl (isLocal, P) ->
  handleEvent ev s =
    (if has_op ev.(Op) Create then handleCreateEvent ev isLocal P
     else if has_op ev.(Op) Remove || has_op ev.(Op) Rename then
       handleDeleteOrRenameEvent ev isLocal P
     else if has_op ev.(Op) Write || has_op ev.(Op) Chmod then
       handleWriteOrChmodEvent ev isLocal P
     else ret None) s.
Proof.
  intros Hp Hd. unfold handleEvent, bind, get. rewrite Hp, Hd. reflexivity.
Qed.

(** C1. A file create/write/chmod event on [P], whose destination map
    entry has a hash different from the freshly fetched source hash and a
    modification time at least the source's, copies nothing, leaves both
    maps (and both sides' files) unchanged and emits exactly one
    "conflict" notification for [P] stating that the destination is
    newer. *)
Theorem conflict_step_frame (ev : Event) (s : SyncEngine) (isLocal : bool) (P h : string)
    (t : Z) (dstMeta : FileMetadata) :
  s.(isPaused) = false -> s.(mu_held) = false -> s.(hasCallback) = true ->
  determineEventSource s.(localRoot) s.(remoteRoot) ev.(Name) = inl (isLocal, P) ->
  P <> "." ->
  fileWriteKind ev.(Op) = true ->
  sideDisk isLocal s !! P = Some (FileF h t) ->
  sideMap (negb isLocal) s !! P = Some dstMeta ->
  dstMeta.(Hash) <> h -> (t <= dstMeta.(ModTime))%Z ->
  handleEvent ev s = Ret None (addNote (conflictNote P isLocal) s).
Proof.
  intros Hp Hm Hc Hsrc Hdot Hk Hdisk Hdst Hh Ht.
  rewrite (handleEvent_dispatch ev s isLocal P Hp Hsrc).
  unfold fileWriteKind in Hk.
  destruct (has_op (Op ev) Create) eqn:Ecr.
  - (* create: os.Stat finds a file, then syncFile *)
    unfold handleCreateEvent, bind, get, os_Stat.
    destruct (String.eqb_spec P "."); [congruence |]. rewrite Hdisk.
    unfold syncFile, bind, get, FS.GetMetadata. rewrite Hdisk.
    rewrite (compareAndSync_conflict isLocal P (mkMeta P h t) dstMeta s Hdst);
      cbn; [rewrite Hc; reflexivity | congruence | lia].
  - cbn in Hk.
    destruct (has_op (Op ev) Remove || has_op (Op ev) Rename); [discriminate |].
    cbn in Hk. rewrite Hk.
    unfold handleWriteOrChmodEvent.
    rewrite (with_mu_ret _ s None (addNote (conflictNote P isLocal) (setMu true s)) Hm).
    + rewrite setMu_addNote, setMu_setMu, <- Hm, setMu_same. reflexivity.
    + unfold bind, get, FS.GetMetadata. rewrite sideDisk_setMu, Hdisk.
      rewrite (compareAndSync_conflict isLocal P (mkMeta P h t) dstMeta (setMu true s));
        cbn; [rewrite Hc; reflexivity | rewrite sideMap_setMu; exact Hdst | congruence | lia].
Qed.

Definition ex_conflict_engine : SyncEngine :=
  sampleEngine {[ "a.txt" := FileF "h1" 5%Z ]} {[ "a.txt" := FileF "h2" 7%Z ]}
    {[ "a.txt" := mkMeta "a.txt" "h0" 3%Z ]} {[ "a.txt" := mkMeta "a.txt" "h2" 7%Z ]}.

Lemma conflict_step_frame_witness :
  handleEvent (mkEvent "/srv/local_data/a.txt" Write) ex_conflict_engine
  = Ret None (addNote (conflictNote "a.txt" true) ex_conflict_engine).
Proof.
  apply (conflict_step_frame _ _ true "a.txt" "h1" 5%Z (mkMeta "a.txt" "h2" 7%Z));
    try reflexivity; try discriminate; try lia.
Defined.

Lemma sideMap_setSideMap_other isLocal m s :
  sideMap (negb isLocal) (setSideMap isLocal m s) = sideMap (negb isLocal) s.
Proof. destruct isLocal; reflexivity. Qed.

Lemma sideMap_setSideMap_same isLocal m s :
  sideMap isLocal (setSideMap isLocal m s) = m.
Proof. destruct isLocal; reflexivity. Qed.

Lemma setSideMap_sideMap isLocal s : setSideMap isLocal (sideMap isLocal s) s = s.
Proof. destruct isLocal, s; reflexivity. Qed.

Lemma setSideMap_negb_sideMap isLocal m s :
  setSideMap (negb isLocal) (sideMap (negb isLocal) s) (setSideMap isLocal m s)
  = setSideMap isLocal m s.
Proof. destruct isLocal, s; reflexivity. Qed.

Lemma setMu_setSideMap b isLocal m s :
  setMu b (setSideMap isLocal m s) = setSideMap isLocal m (setMu b s).
Proof. destruct isLocal; reflexivity. Qed.

(** The agreeing branch of the metadata comparison: only the source map
    entry is written with fresh metadata; the destination entry is written
    back with the value it already had. *)
Lemma compareAndSync_agree isLocal rel srcMeta dm s :
  sideMap (negb isLocal) s !! rel = Some dm ->
  srcMeta.(Hash) = dm.(Hash) ->
  compareAndSync isLocal rel srcMeta s
  = Ret None (setSideMap isLocal (<[rel := srcMeta]> (sideMap isLocal s)) s).
Proof.
  intros Hd Hh. unfold compareAndSync, mapInsert, modify, bind, get, ret. rewrite Hd. cbn.
  rewrite Hh, String.eqb_refl. cbn.
  rewrite sideMap_setSideMap_other, insert_id by exact Hd.
  rewrite setSideMap_negb_sideMap. reflexivity.
Qed.

(** C5 (as the code does it). A file create/write/chmod event on [P]
    whose destination map entry has the hash of the freshly fetched source
    metadata copies nothing and emits nothing; the source map entry for
    [P] becomes the fresh source metadata and the destination entry keeps
    the value it had. *)
Theorem agree_step_refresh_source (ev : Event) (s : SyncEngine) (isLocal : bool)
    (P h : string) (t : Z) (dstMeta : FileMetadata) :
  s.(isPaused) = false -> s.(mu_held) = false ->
  determineEventSource s.(localRoot) s.(remoteRoot) ev.(Name) = inl (isLocal, P) ->
  P <> "." ->
  fileWriteKind ev.(Op) = true ->
  sideDisk isLocal s !! P = Some (FileF h t) ->
  sideMap (negb isLocal) s !! P = Some dstMeta ->
  dstMeta.(Hash) = h ->
  handleEvent ev s
  = Ret None (setSideMap isLocal (<[P := mkMeta P h t]> (sideMap isLocal s)) s).
Proof.
  intros Hp Hm Hsrc Hdot Hk Hdisk Hdst Hh.
  rewrite (handleEvent_dispatch ev s isLocal P Hp Hsrc).
  unfold fileWriteKind in Hk.
  destruct (has_op (Op ev) Create) eqn:Ecr.
  - unfold handleCreateEvent, bind, get, os_Stat.
    destruct (String.eqb_spec P "."); [congruence |]. rewrite Hdisk.
    unfold syncFile, bind, get, FS.GetMetadata. rewrite Hdisk.
    apply (compareAndSync_agree isLocal P (mkMeta P h t) dstMeta s Hdst).
    cbn. congruence.
  - cbn in Hk.
    destruct (has_op (Op ev) Remove || has_op (Op ev) Rename); [discriminate |].
    cbn in Hk. rewrite Hk.
    unfold handleWriteOrChmodEvent.
    rewrite (with_mu_ret _ s None
               (setSideMap isLocal (<[P := mkMeta P h t]> (sideMap isLocal (setMu true s)))
                  (setMu true s)) Hm).
    + rewrite setMu_setSideMap, setMu_setMu, <- Hm, setMu_same, sideMap_setMu.
      reflexivity.
    + unfold bind, get, FS.GetMetadata. rewrite sideDisk_setMu, Hdisk.
      apply (compareAndSync_agree _ _ _ dstMeta);
        [rewrite sideMap_setMu; exact Hdst | cbn; congruence].
Qed.

Definition ex_agree_engine : SyncEngine :=
  sampleEngine {[ "a.txt" := FileF "h2" 9%Z ]} {[ "a.txt" := FileF "h2" 7%Z ]}
    {[ "a.txt" := mkMeta "a.txt" "h2" 7%Z ]} {[ "a.txt" := mkMeta "a.txt" "h2" 7%Z ]}.

Lemma agree_step_refresh_source_witness :
  handleEvent (mkEvent "/srv/local_data/a.txt" Write) ex_agree_engine
  = Ret None (setLocalMap {[ "a.txt" := mkMeta "a.txt" "h2" 9%Z ]} ex_agree_engine).
Proof.
  rewrite (agree_step_refresh_source _ _ true "a.txt" "h2" 9%Z (mkMeta "a.txt" "h2" 7%Z));
    try reflexivity; try discriminate.
Defined.

(** C5 as stated fails: after a local write whose content agrees with the
    remote entry, the remote map entry is not the freshly fetched source
    metadata (its modification time stays 7 while the fresh one is 9). *)
Lemma agree_step_counterexample :
  exists s',
    handleEvent (mkEvent "/srv/local_data/a.txt" Write) ex_agree_engine = Ret None s' /\
    FS.GetMetadata ex_agree_engine.(localDisk) "a.txt" = inl (mkMeta "a.txt" "h2" 9%Z) /\
    s'.(remoteMap) !! "a.txt" <> Some (mkMeta "a.txt" "h2" 9%Z).
Proof.
  eexists. split; [vm_compute; reflexivity | split; [reflexivity |]].
  vm_compute. congruence.
Qed.

(* ------------------------------------------------------------------ *)
(** ** Workers (concurrency.go), one goroutine at a time *)

(** [eventKey] *)
Definition eventKey (isLocal : bool) (rel : string) : string :=
  (if isLocal then "local" else "remote") ++ ":" ++ rel.

(** [lockFor(relPath).Lock()]: [LoadOrStore] creates the mutex on first
    use; locking a held mutex waits. *)
Definition lockPath (rel : string) : M unit :=
  fun s => match s.(perFileLocks) !! rel with
           | Some true => Blocked s
           | _ => Ret tt (setLocks (<[rel := true]> s.(perFileLocks)) s)
           end.

Definition unlockPath (rel : string) : M unit :=
  modify (fun s => setLocks (<[rel := false]> s.(perFileLocks)) s).

(** [markEventProcessed] at time [now]. *)
Definition markEventProcessed (isLocal : bool) (rel : string) (now : Z) : M unit :=
  modify (fun s => setPending (<[eventKey isLocal rel := now]> s.(pendingEvents)) s).

(** [processEventWithLock]; the deferred function runs after the step. *)
Definition processEventWithLock (qe : QueuedEvent) (now : Z) : M unit :=
  if String.eqb qe.(raw).(Name) "" then ret tt else
  let* _ := lockPath qe.(qe_relPath) in
  let* _ := handleEvent qe.(raw) in
  let* _ := unlockPath qe.(qe_relPath) in
  markEventProcessed qe.(qe_isLocal) qe.(qe_relPath) now.

(** One iteration of [worker] that receives a job from [s.jobs]
    ([false] when the queue is empty). *)
Definition workerStep (now : Z) : M bool :=
  fun s => match s.(jobs) with
           | [] => Ret false s
           | qe :: rest =>
               (if String.eqb qe.(raw).(Name) "" then ret true
                else let* _ := processEventWithLock qe now in ret true) (setJobs rest s)
           end.

(** [Resume] *)
Definition Resume : M unit := modify (setPaused false).

(** C8. A synchronization step that finds the engine paused returns at
    once and leaves the whole engine state as it was (no map, file,
    notification or copy change); the worker that ran it has taken the
    event off the queue, which then holds only the later jobs: the
    suppressed event is not kept for replay. *)
Theorem paused_step_noop (ev : Event) (s : SyncEngine) :
  s.(isPaused) = true ->
  handleEvent ev s = Ret None s /\
  forall (isLocal : bool) (rel : string) (rest : list QueuedEvent) (now : Z),
    s.(jobs) = mkQE ev isLocal rel :: rest ->
    s.(perFileLocks) !! rel <> Some true ->
    exists s', workerStep now s = Ret true s' /\
      s'.(jobs) = rest /\ s'.(isPaused) = true /\
      s'.(localMap) = s.(localMap) /\ s'.(remoteMap) = s.(remoteMap) /\
      s'.(localDisk) = s.(localDisk) /\ s'.(remoteDisk) = s.(remoteDisk) /\
      s'.(notifications) = s.(notifications) /\ s'.(copies) = s.(copies).
Proof.
  intros Hp.
  assert (Hstep : forall s0, s0.(isPaused) = true -> handleEvent ev s0 = Ret None s0).
  { intros s0 H0. unfold handleEvent, bind, get. rewrite H0. reflexivity. }
  split; [exact (Hstep s Hp) |].
  intros isLocal rel rest now Hq Hl.
  unfold workerStep. rewrite Hq. cbn -[handleEvent].
  destruct (String.eqb (Name ev) "") eqn:En.
  - eexists. split; [reflexivity |]. cbn. repeat split; auto.
  - unfold processEventWithLock, bind, ret. cbn -[handleEvent]. rewrite En.
    unfold lockPath. cbn -[handleEvent].
    destruct (perFileLocks s !! rel) as [[|]|] eqn:El; try congruence.
    + rewrite Hstep by (cbn; exact Hp). cbn. eexists. split; [reflexivity |].
      cbn. repeat split; auto.
    + rewrite Hstep by (cbn; exact Hp). cbn. eexists. split; [reflexivity |].
      cbn. repeat split; auto.
Qed.

Definition ex_paused_engine : SyncEngine :=
  setJobs [mkQE (mkEvent "/srv/local_data/notes.txt" Remove) true "notes.txt"]
    (setPaused true
       (sampleEngine {[ "notes.txt" := FileF "ha" 5%Z ]} {[ "notes.txt" := FileF "ha" 5%Z ]}
          {[ "notes.txt" := mkMeta "notes.txt" "ha" 5%Z ]}
          {[ "notes.txt" := mkMeta "notes.txt" "ha" 5%Z ]})).

Lemma paused_step_noop_witness :
  handleEvent (mkEvent "/srv/local_data/notes.txt" Remove) ex_paused_engine
  = Ret None ex_paused_engine.
Proof.
  apply (paused_step_noop (mkEvent "/srv/local_data/notes.txt" Remove) ex_paused_engine).
  reflexivity.
Defined.

(** [handleMissingFile] called while [s.mu] is held (as from
    [handleWriteOrChmodEvent]) never returns. *)
Lemma handleMissingFile_under_mu rel isLocal s :
  s.(mu_held) = true -> handleMissingFile rel isLocal s = Blocked s.
Proof. intros H. unfold handleMissingFile, with_mu, bind, lock_mu. rewrite H. reflexivity. Qed.

(** The provider's NotFound error is wrapped with [%w], so [os.IsNotExist]
    never recognises it. *)
Lemma GetMetadata_missing_not_IsNotExist d rel :
  d !! rel = None ->
  exists e, FS.GetMetadata d rel = inr e /\ os_IsNotExist e = false.
Proof. intros H. unfold FS.GetMetadata. rewrite H. eexists. split; reflexivity. Qed.

(** C6 (the code). A create, write or chmod event for a file that is gone
    from the source side returns an error and leaves the engine state
    exactly as it was: neither map entry is removed, the destination file
    is not deleted and no "delete" notification is emitted. *)
Theorem vanished_file_not_deleted (ev : Event) (s : SyncEngine) (isLocal : bool) (P : string) :
  s.(isPaused) = false -> s.(mu_held) = false ->
  determineEventSource s.(localRoot) s.(remoteRoot) ev.(Name) = inl (isLocal, P) ->
  P <> "." ->
  fileWriteKind ev.(Op) = true ->
  sideDisk isLocal s !! P = None ->
  exists e, handleEvent ev s = Ret (Some e) s.
Proof.
  intros Hp Hm Hsrc Hdot Hk Hdisk.
  rewrite (handleEvent_dispatch ev s isLocal P Hp Hsrc).
  unfold fileWriteKind in Hk.
  destruct (has_op (Op ev) Create) eqn:Ecr.
  - unfold handleCreateEvent, bind, get, os_Stat.
    destruct (String.eqb_spec P "."); [congruence |]. rewrite Hdisk.
    eexists. reflexivity.
  - cbn in Hk.
    destruct (has_op (Op ev) Remove || has_op (Op ev) Rename); [discriminate |].
    cbn in Hk. rewrite Hk.
    unfold handleWriteOrChmodEvent.
    set (e := WrapError ("error getting metadata for " ++ Name ev)
                (WrapError "error stating file" (PathError "stat" P ENOENT))).
    exists e.
    rewrite (with_mu_ret _ s (Some e) (setMu true s) Hm).
    + rewrite setMu_setMu, <- Hm, setMu_same. reflexivity.
    + unfold bind, get, FS.GetMetadata. rewrite sideDisk_setMu, Hdisk. reflexivity.
Qed.

Definition ex_vanished_engine : SyncEngine :=
  sampleEngine ∅ {[ "a.txt" := FileF "h1" 5%Z ]}
    {[ "a.txt" := mkMeta "a.txt" "h1" 5%Z ]} {[ "a.txt" := mkMeta "a.txt" "h1" 5%Z ]}.

Lemma vanished_file_not_deleted_witness :
  exists e, handleEvent (mkEvent "/srv/local_data/a.txt" Write) ex_vanished_engine
            = Ret (Some e) ex_vanished_engine.
Proof.
  apply (vanished_file_not_deleted _ _ true "a.txt"); try reflexivity; try discriminate.
Defined.

(* ------------------------------------------------------------------ *)
(** ** Reconciliation (state_management.go) *)

(** One iteration of the first loop of [reconcile], for the local entry
    at [relPath]; [Some e] is a [return] of the error. *)
Definition reconcileLocalKey (relPath : string) : M (option GoError) :=
  let* s := get in
  match s.(localMap) !! relPath with
  | None => ret None
  | Some localMeta =>
      match s.(remoteMap) !! relPath with
      | None =>
          let* e := copyFile true relPath localMeta.(ModTime) in
          match e with
          | Some e => ret (Some (WrapError ("error copying file " ++ relPath ++ " to remote") e))
          | None => let* _ := mapInsert false relPath localMeta in ret None
          end
      | Some remoteMeta =>
          if negb (String.eqb localMeta.(Hash) remoteMeta.(Hash)) then
            if (remoteMeta.(ModTime) <? localMeta.(ModTime))%Z then
              let* e := copyFile true relPath localMeta.(ModTime) in
              match e with
              | Some e => ret (Some (WrapError ("error updating file " ++ relPath ++ " to remote") e))
              | None => let* _ := mapInsert false relPath localMeta in ret None
              end
            else
              let* e := copyFile false relPath remoteMeta.(ModTime) in
              match e with
              | Some e => ret (Some (WrapError ("error updating file " ++ relPath ++ " to local") e))
              | None => let* _ := mapInsert true relPath remoteMeta in ret None
              end
          else ret None
      end
  end.

(** One iteration of the second loop, for the remote entry at [relPath]. *)
Definition reconcileRemoteKey (relPath : string) : M (option GoError) :=
  let* s := get in
  match s.(remoteMap) !! relPath with
  | None => ret None
  | Some remoteMeta =>
      match s.(localMap) !! relPath with
      | Some _ => ret None
      | None =>
          let* e := copyFile false relPath remoteMeta.(ModTime) in
          match e with
          | Some e => ret (Some (WrapError ("error copying file " ++ relPath ++ " to local") e))
          | None => let* _ := mapInsert true relPath remoteMeta in ret None
          end
      end
  end.

(** A [for ... range] loop whose body may [return] an error. *)
Fixpoint rangeLoop (body : string -> M (option GoError)) (ks : list string)
  : M (option GoError) :=
  match ks with
  | [] => ret None
  | k :: ks' =>
      let* e := body k in
      match e with
      | Some e => ret (Some e)
      | None => rangeLoop body ks'
      end
  end.

(** Go's map iteration order is unspecified: [ord m] is the order in
    which [range] visits the keys of [m]. *)
Definition OrderOK (ord : StateMap -> list string) : Prop :=
  forall m : StateMap, NoDup (ord m) /\ forall k, k ∈ ord m <-> is_Some (m !! k).

(** [reconcile], the two loops visiting keys in the orders [ord1] and
    [ord2]. *)
Definition reconcile (ord1 ord2 : StateMap -> list string) : M (option GoError) :=
  with_mu (
    let* s := get in
    let* e := rangeLoop reconcileLocalKey (ord1 s.(localMap)) in
    match e with
    | Some e => ret (Some e)
    | None =>
        let* s := get in
        rangeLoop reconcileRemoteKey (ord2 s.(remoteMap))
    end).

(** The iteration orders of stdpp's [map_to_list]. *)
Definition mapKeys (m : StateMap) : list string := (map_to_list m).*1.

Lemma mapKeys_OrderOK : OrderOK mapKeys.
Proof.
  intros m. split.
  - unfold mapKeys. apply NoDup_fst_map_to_list.
  - intros k. unfold mapKeys. rewrite list_elem_of_fmap. split.
    + intros [[k' v] [-> Hin]]. apply elem_of_map_to_list in Hin. cbn. eauto.
    + intros [v Hv]. exists (k, v). split; [reflexivity |].
      by apply elem_of_map_to_list.
Qed.

(** The pair of entries of both maps at one path. *)
Definition LR (s : SyncEngine) (k : string) : option FileMetadata * option FileMetadata :=
  (s.(localMap) !! k, s.(remoteMap) !! k).

(** What one iteration of the first loop does to the entries at its key,
    and which copy it makes ([Some true]: local to remote). *)
Definition localKeyOutcome (p : option FileMetadata * option FileMetadata)
  : option FileMetadata * option FileMetadata :=
  match p with
  | (Some lm, None) => (Some lm, Some lm)
  | (Some lm, Some rm) =>
      if negb (String.eqb lm.(Hash) rm.(Hash)) then
        if (rm.(ModTime) <? lm.(ModTime))%Z then (Some lm, Some lm) else (Some rm, Some rm)
      else p
  | _ => p
  end.

Definition localKeyCopy (p : option FileMetadata * option FileMetadata) : option bool :=
  match p with
  | (Some lm, None) => Some true
  | (Some lm, Some rm) =>
      if negb (String.eqb lm.(Hash) rm.(Hash)) then
        Some (rm.(ModTime) <? lm.(ModTime))%Z
      else None
  | _ => None
  end.

Definition remoteKeyOutcome (p : option FileMetadata * option FileMetadata)
  : option FileMetadata * option FileMetadata :=
  match p with
  | (None, Some rm) => (Some rm, Some rm)
  | _ => p
  end.

Definition remoteKeyCopy (p : option FileMetadata * option FileMetadata) : option bool :=
  match p with
  | (None, Some rm) => Some false
  | _ => None
  end.

Lemma copyFile_spec b k mt s e s' :
  copyFile b k mt s = Ret e s' ->
  s'.(localMap) = s.(localMap) /\ s'.(remoteMap) = s.(remoteMap) /\
  s'.(copies) = (s.(copies) ++ [(b, k)])%list /\ s'.(mu_held) = s.(mu_held).
Proof.
  unfold copyFile.
  destruct (FS.GetReader _ k) as [[h|]|]; [| | intros H; inversion H; subst; destruct b; auto].
  all: destruct (FS.GetWriter _ k _); intros H; inversion H; subst; destruct b; auto.
Qed.

Lemma copies_prefix_app (l : list (bool * string)) c : l `prefix_of` (l ++ [c])%list.
Proof. by exists [c]. Qed.

(** One iteration of the first loop touches only its own key. *)
Lemma reconcileLocalKey_spec k s e s' :
  reconcileLocalKey k s = Ret e s' ->
  (e = None -> LR s' k = localKeyOutcome (LR s k) /\
               forall b, localKeyCopy (LR s k) = Some b -> (b, k) ∈ s'.(copies)) /\
  (forall j, j <> k -> LR s' j = LR s j) /\
  s.(copies) `prefix_of` s'.(copies) /\ s'.(mu_held) = s.(mu_held).
Proof.
  unfold reconcileLocalKey, bind, get, ret, LR, mapInsert, modify.
  destruct (localMap s !! k) as [lm|] eqn:El.
  2: { intros H; inversion H; subst. rewrite El. repeat split; auto. discriminate. }
  destruct (remoteMap s !! k) as [rm|] eqn:Er.
  - destruct (negb (String.eqb (Hash lm) (Hash rm))) eqn:Eh.
    2: { intros H; inversion H; subst. rewrite El, Er. cbn. rewrite Eh.
         repeat split; auto. discriminate. }
    destruct (ModTime rm <? ModTime lm)%Z eqn:Et.
    + destruct (copyFile true k (ModTime lm) s) as [[e1|] s1 | s1] eqn:Hc;
        intros H; inversion H; subst; clear H;
        destruct (copyFile_spec _ _ _ _ _ _ Hc) as (Hl & Hr & Hcp & Hm).
      * repeat split; try discriminate; [intros j _; unfold LR; by rewrite Hl, Hr | | done].
        rewrite Hcp. apply copies_prefix_app.
      * cbn. rewrite ?Hl, ?Hr, ?El, ?Er. cbn. rewrite ?Eh, ?Et, ?Hcp.
        repeat split.
        -- by rewrite lookup_insert_eq.
        -- intros b Hb. injection Hb as <-. set_solver.
        -- intros j Hj. by rewrite lookup_insert_ne by congruence.
        -- apply copies_prefix_app.
        -- exact Hm.
    + destruct (copyFile false k (ModTime rm) s) as [[e1|] s1 | s1] eqn:Hc;
        intros H; inversion H; subst; clear H;
        destruct (copyFile_spec _ _ _ _ _ _ Hc) as (Hl & Hr & Hcp & Hm).
      * repeat split; try discriminate; [intros j _; unfold LR; by rewrite Hl, Hr | | done].
        rewrite Hcp. apply copies_prefix_app.
      * cbn. rewrite ?Hl, ?Hr, ?El, ?Er. cbn. rewrite ?Eh, ?Et, ?Hcp.
        repeat split.
        -- by rewrite lookup_insert_eq.
        -- intros b Hb. injection Hb as <-. set_solver.
        -- intros j Hj. by rewrite lookup_insert_ne by congruence.
        -- apply copies_prefix_app.
        -- exact Hm.
  - destruct (copyFile true k (ModTime lm) s) as [[e1|] s1 | s1] eqn:Hc;
      intros H; inversion H; subst; clear H;
      destruct (copyFile_spec _ _ _ _ _ _ Hc) as (Hl & Hr & Hcp & Hm).
    + repeat split; try discriminate; [intros j _; unfold LR; by rewrite Hl, Hr | | done].
      rewrite Hcp. apply copies_prefix_app.
    + cbn. rewrite ?Hl, ?Hr, ?El, ?Er. cbn. rewrite ?Hcp.
      repeat split.
      * by rewrite lookup_insert_eq.
      * intros b Hb. injection Hb as <-. set_solver.
      * intros j Hj. by rewrite lookup_insert_ne by congruence.
      * apply copies_prefix_app.
      * exact Hm.
Qed.

Ltac frame_close :=
  repeat (match goal with
          | |- _ /\ _ => split
          | |- _ -> _ => intro
          end); try done; try discriminate.

Lemma reconcileRemoteKey_spec k s e s' :
  reconcileRemoteKey k s = Ret e s' ->
  (e = None -> LR s' k = remoteKeyOutcome (LR s k) /\
               forall b, remoteKeyCopy (LR s k) = Some b -> (b, k) ∈ s'.(copies)) /\
  (forall j, j <> k -> LR s' j = LR s j) /\
  s.(copies) `prefix_of` s'.(copies) /\ s'.(mu_held) = s.(mu_held).
Proof.
  unfold reconcileRemoteKey, bind, get, ret, LR, mapInsert, modify.
  destruct (remoteMap s !! k) as [rm|] eqn:Er.
  2: { intros H; inversion H; subst.
       rewrite Er. destruct (localMap s' !! k); frame_close. }
  destruct (localMap s !! k) as [lm|] eqn:El.
  { intros H; inversion H; subst. rewrite El, Er. frame_close. }
  destruct (copyFile false k (ModTime rm) s) as [[e1|] s1 | s1] eqn:Hc;
    intros H; inversion H; subst; clear H;
    destruct (copyFile_spec _ _ _ _ _ _ Hc) as (Hl & Hr & Hcp & Hm).
  - repeat split; try discriminate; [intros j _; unfold LR; by rewrite Hl, Hr | | done].
    rewrite Hcp. apply copies_prefix_app.
  - cbn. rewrite ?Hl, ?Hr, ?El, ?Er. cbn. rewrite ?Hcp.
    repeat split.
    + by rewrite lookup_insert_eq.
    + intros b Hb. injection Hb as <-. set_solver.
    + intros j Hj. by rewrite lookup_insert_ne by congruence.
    + apply copies_prefix_app.
    + exact Hm.
Qed.

(** A loop body that acts on the entries of its own key only, as [f]
    says, and makes the copy [c] says. *)
Definition KeyBody (body : string -> M (option GoError))
    (f : option FileMetadata * option FileMetadata -> option FileMetadata * option FileMetadata)
    (c : option FileMetadata * option FileMetadata -> option bool) : Prop :=
  forall k s e s', body k s = Ret e s' ->
    (e = None -> LR s' k = f (LR s k) /\
                 forall b, c (LR s k) = Some b -> (b, k) ∈ s'.(copies)) /\
    (forall j, j <> k -> LR s' j = LR s j) /\
    s.(copies) `prefix_of` s'.(copies) /\ s'.(mu_held) = s.(mu_held).

Lemma rangeLoop_spec body f c (Hb : KeyBody body f c) (ks : list string) :
  NoDup ks ->
  forall s s', rangeLoop body ks s = Ret None s' ->
    (forall k, LR s' k = if bool_decide (k ∈ ks) then f (LR s k) else LR s k) /\
    (forall k b, k ∈ ks -> c (LR s k) = Some b -> (b, k) ∈ s'.(copies)) /\
    s.(copies) `prefix_of` s'.(copies) /\ s'.(mu_held) = s.(mu_held).
Proof.
  induction ks as [|k ks IH]; intros Hnd s s' Hrun.
  - cbn in Hrun. inversion Hrun; subst. repeat split; auto.
    intros k b Hk. set_solver.
  - apply NoDup_cons in Hnd as [Hnin Hnd].
    cbn in Hrun. unfold bind in Hrun.
    destruct (body k s) as [[e1|] s1 | s1] eqn:Hk; [discriminate | | discriminate].
    destruct (Hb _ _ _ _ Hk) as (Hown & Hother & Hcp1 & Hm1).
    destruct (Hown eq_refl) as [Hkk Hkc].
    destruct (IH Hnd _ _ Hrun) as (Hall & Hcps & Hcp2 & Hm2).
    repeat split.
    + intros j. rewrite Hall.
      destruct (decide (j = k)) as [->|Hjk].
      * rewrite (bool_decide_false (k ∈ ks)) by exact Hnin.
        rewrite bool_decide_true by set_solver. exact Hkk.
      * rewrite Hother by exact Hjk.
        destruct (bool_decide (j ∈ ks)) eqn:Ej.
        -- rewrite bool_decide_true; [reflexivity |].
           apply bool_decide_eq_true in Ej. set_solver.
        -- rewrite bool_decide_false; [reflexivity |].
           apply bool_decide_eq_false in Ej. set_solver.
    + intros j b Hj Hc. apply elem_of_cons in Hj as [->|Hj].
      * eapply elem_of_prefix; [apply Hkc, Hc | exact Hcp2].
      * destruct (decide (j = k)) as [->|Hjk]; [contradiction |].
        apply Hcps; [exact Hj |]. rewrite Hother by exact Hjk. exact Hc.
    + etrans; eassumption.
    + congruence.
Qed.

Lemma reconcileLocalKey_body : KeyBody reconcileLocalKey localKeyOutcome localKeyCopy.
Proof. intros k s e s' H. exact (reconcileLocalKey_spec k s e s' H). Qed.

Lemma reconcileRemoteKey_body : KeyBody reconcileRemoteKey remoteKeyOutcome remoteKeyCopy.
Proof. intros k s e s' H. exact (reconcileRemoteKey_spec k s e s' H). Qed.

Lemma LR_setMu b s k : LR (setMu b s) k = LR s k.
Proof. reflexivity. Qed.

(** A successful [reconcile] acts path by path: the entries at every
    path end as the two loop bodies say, whatever the iteration orders. *)
Lemma reconcile_pointwise ord1 ord2 (s s' : SyncEngine) :
  OrderOK ord1 -> OrderOK ord2 -> s.(mu_held) = false ->
  reconcile ord1 ord2 s = Ret None s' ->
  (forall k, LR s' k = remoteKeyOutcome (localKeyOutcome (LR s k))) /\
  (forall k b, localKeyCopy (LR s k) = Some b -> (b, k) ∈ s'.(copies)) /\
  s'.(mu_held) = false.
Proof.
  intros Ho1 Ho2 Hm Hr.
  unfold reconcile, with_mu, bind, lock_mu, get in Hr. rewrite Hm in Hr.
  destruct (rangeLoop reconcileLocalKey (ord1 (localMap (setMu true s))) (setMu true s))
    as [[e1|] s1 | s1] eqn:H1; [discriminate | | discriminate].
  destruct (rangeLoop reconcileRemoteKey (ord2 (remoteMap s1)) s1)
    as [[e2|] s2 | s2] eqn:H2; [discriminate | | discriminate].
  cbn in Hr. inversion Hr; subst s'. clear Hr.
  destruct (Ho1 (localMap (setMu true s))) as [Hnd1 Hin1].
  destruct (Ho2 (remoteMap s1)) as [Hnd2 Hin2].
  destruct (rangeLoop_spec _ _ _ reconcileLocalKey_body _ Hnd1 _ _ H1)
    as (Hl1 & Hc1 & Hp1 & Hm1).
  destruct (rangeLoop_spec _ _ _ reconcileRemoteKey_body _ Hnd2 _ _ H2)
    as (Hl2 & Hc2 & Hp2 & Hm2).
  assert (Hstep1 : forall k, LR s1 k = localKeyOutcome (LR s k)).
  { intros k. rewrite Hl1, LR_setMu.
    case_bool_decide as Hk; [reflexivity |].
    unfold LR. destruct (localMap s !! k) eqn:E; [| reflexivity].
    exfalso. apply Hk, Hin1. cbn. rewrite E. eauto. }
  split; [| split].
  - intros k. rewrite LR_setMu, Hl2. case_bool_decide as Hk; [by rewrite Hstep1 |].
    rewrite <- Hstep1. unfold LR. destruct (remoteMap s1 !! k) eqn:E.
    + exfalso. apply Hk, Hin2. rewrite E. eauto.
    + destruct (localMap s1 !! k); reflexivity.
  - intros k b Hb. cbn. eapply elem_of_prefix; [| exact Hp2].
    apply Hc1; [apply Hin1; cbn | exact Hb].
    unfold LR in Hb. destruct (localMap s !! k); [eauto | discriminate].
  - reflexivity.
Qed.

(** Both maps hold an entry at a path, with equal hashes, or neither does. *)
Definition PairedAt (p : option FileMetadata * option FileMetadata) : Prop :=
  match p with
  | (Some lm, Some rm) => lm.(Hash) = rm.(Hash)
  | (None, None) => True
  | _ => False
  end.

Definition Paired (s : SyncEngine) : Prop := forall k, PairedAt (LR s k).

Lemma outcome_paired p : PairedAt (remoteKeyOutcome (localKeyOutcome p)).
Proof.
  destruct p as [[lm|] [rm|]]; cbn; auto.
  destruct (String.eqb (Hash lm) (Hash rm)) eqn:E; cbn.
  - by apply String.eqb_eq.
  - destruct (_ <? _)%Z; reflexivity.
Qed.

Lemma reconcileLocalKey_paired k s : Paired s -> reconcileLocalKey k s = Ret None s.
Proof.
  intros Hp. specialize (Hp k). unfold LR, PairedAt in Hp.
  unfold reconcileLocalKey, bind, get, ret.
  destruct (localMap s !! k) as [lm|]; [| reflexivity].
  destruct (remoteMap s !! k) as [rm|]; [| contradiction].
  rewrite Hp, String.eqb_refl. reflexivity.
Qed.

Lemma reconcileRemoteKey_paired k s : Paired s -> reconcileRemoteKey k s = Ret None s.
Proof.
  intros Hp. specialize (Hp k). unfold LR, PairedAt in Hp.
  unfold reconcileRemoteKey, bind, get, ret.
  destruct (remoteMap s !! k) as [rm|]; [| reflexivity].
  destruct (localMap s !! k) as [lm|]; [reflexivity | contradiction].
Qed.

Lemma rangeLoop_paired body ks s :
  (forall k, body k s = Ret None s) -> rangeLoop body ks s = Ret None s.
Proof.
  intros Hb. induction ks as [|k ks IH]; [reflexivity |].
  cbn. unfold bind. rewrite Hb. exact IH.
Qed.

Lemma Paired_setMu b s : Paired s -> Paired (setMu b s).
Proof. intros Hp k. rewrite LR_setMu. apply Hp. Qed.

Lemma reconcile_paired ord1 ord2 s :
  s.(mu_held) = false -> Paired s -> reconcile ord1 ord2 s = Ret None s.
Proof.
  intros Hm Hp. rewrite <- (setMu_same s) at 2. rewrite Hm, <- (setMu_setMu false true s).
  apply with_mu_ret; [exact Hm |].
  pose proof (Paired_setMu true s Hp) as Hp'.
  unfold bind, get.
  rewrite (rangeLoop_paired _ _ _ (fun k => reconcileLocalKey_paired k _ Hp')).
  rewrite (rangeLoop_paired _ _ _ (fun k => reconcileRemoteKey_paired k _ Hp')).
  reflexivity.
Qed.

(* A tie: equal modification times, different contents. *)
Definition ex_tie_engine : SyncEngine :=
  sampleEngine {[ "a.txt" := FileF "hL" 5%Z ]} {[ "a.txt" := FileF "hR" 5%Z ]}
    {[ "a.txt" := mkMeta "a.txt" "hL" 5%Z ]} {[ "a.txt" := mkMeta "a.txt" "hR" 5%Z ]}.

(* Two paths, one on each side only, and one path differing in content. *)
Definition ex_reconcile_engine : SyncEngine :=
  sampleEngine
    {[ "a.txt" := FileF "hL" 9%Z; "l.txt" := FileF "hl" 3%Z ]}
    {[ "a.txt" := FileF "hR" 5%Z; "r.txt" := FileF "hr" 4%Z ]}
    {[ "a.txt" := mkMeta "a.txt" "hL" 9%Z; "l.txt" := mkMeta "l.txt" "hl" 3%Z ]}
    {[ "a.txt" := mkMeta "a.txt" "hR" 5%Z; "r.txt" := mkMeta "r.txt" "hr" 4%Z ]}.

(** * C2 (corrected): in a successful reconciliation, for a path present in
    both maps with different hashes, a strictly later local modification
    time makes local win (local copied to remote, remote entry set to the
    local metadata); otherwise, ties included, remote wins (remote copied
    to local, local entry set to the remote metadata). *)
Theorem reconcile_later_wins ord1 ord2 (s s' : SyncEngine) p lm rm :
  OrderOK ord1 -> OrderOK ord2 -> s.(mu_held) = false ->
  reconcile ord1 ord2 s = Ret None s' ->
  s.(localMap) !! p = Some lm -> s.(remoteMap) !! p = Some rm -> lm.(Hash) <> rm.(Hash) ->
  ((rm.(ModTime) < lm.(ModTime))%Z ->
     s'.(localMap) !! p = Some lm /\ s'.(remoteMap) !! p = Some lm /\ (true, p) ∈ s'.(copies)) /\
  ((lm.(ModTime) <= rm.(ModTime))%Z ->
     s'.(localMap) !! p = Some rm /\ s'.(remoteMap) !! p = Some rm /\ (false, p) ∈ s'.(copies)).
Proof.
  intros Ho1 Ho2 Hm Hr Hl Hrm Hh.
  destruct (reconcile_pointwise _ _ _ _ Ho1 Ho2 Hm Hr) as (Hpt & Hc & _).
  specialize (Hpt p). specialize (Hc p).
  unfold LR in Hpt, Hc. rewrite Hl, Hrm in Hpt, Hc. cbn in Hpt, Hc.
  assert (Hne : String.eqb (Hash lm) (Hash rm) = false) by (apply String.eqb_neq; exact Hh).
  rewrite Hne in Hpt, Hc. cbn in Hpt, Hc.
  split; intros Ht.
  - assert (E : (ModTime rm <? ModTime lm)%Z = true) by (apply Z.ltb_lt; lia).
    rewrite E in Hpt, Hc. cbn in Hpt. inversion Hpt as [[H1 H2]].
    repeat split; auto.
  - assert (E : (ModTime rm <? ModTime lm)%Z = false) by (apply Z.ltb_ge; lia).
    rewrite E in Hpt, Hc. cbn in Hpt. inversion Hpt as [[H1 H2]].
    repeat split; auto.
Qed.

Lemma reconcile_later_wins_witness :
  OrderOK mapKeys /\ ex_reconcile_engine.(mu_held) = false /\
  exists s', reconcile mapKeys mapKeys ex_reconcile_engine = Ret None s' /\
    s'.(remoteMap) !! "a.txt" = Some (mkMeta "a.txt" "hL" 9%Z).
Proof.
  split; [exact mapKeys_OrderOK | split; [reflexivity |]].
  eexists. split; [vm_compute; reflexivity |].
  refine (proj1 (proj2 (proj1 (reconcile_later_wins mapKeys mapKeys ex_reconcile_engine _ "a.txt"
             (mkMeta "a.txt" "hL" 9%Z) (mkMeta "a.txt" "hR" 5%Z)
             mapKeys_OrderOK mapKeys_OrderOK eq_refl _ eq_refl eq_refl _) _))).
  - vm_compute. reflexivity.
  - cbn. discriminate.
  - cbn. lia.
Defined.

(** C2 as stated fails on a tie: with equal modification times and
    different hashes, reconciliation copies remote to local and leaves the
    remote entry as it was, not set to the local metadata. *)
Lemma reconcile_tie_counterexample :
  exists s',
    reconcile mapKeys mapKeys ex_tie_engine = Ret None s' /\
    s'.(remoteMap) !! "a.txt" <> Some (mkMeta "a.txt" "hL" 5%Z) /\
    s'.(localMap) !! "a.txt" = Some (mkMeta "a.txt" "hR" 5%Z) /\
    (true, "a.txt") ∉ s'.(copies).
Proof.
  eexists. split; [vm_compute; reflexivity |].
  vm_compute. split; [congruence | split; [reflexivity |]].
  intros H. inversion H as [| ? ? ? H']; subst. inversion H'.
Qed.

(** * C3: reconciliation is idempotent: after a successful [reconcile],
    running it again, in any iteration orders, returns [nil] and leaves
    the whole engine state as it is: no copy, no map entry changed. *)
Theorem reconcile_idempotent ord1 ord2 ord1' ord2' (s s1 : SyncEngine) :
  OrderOK ord1 -> OrderOK ord2 -> s.(mu_held) = false ->
  reconcile ord1 ord2 s = Ret None s1 ->
  reconcile ord1' ord2' s1 = Ret None s1.
Proof.
  intros Ho1 Ho2 Hm Hr.
  destruct (reconcile_pointwise _ _ _ _ Ho1 Ho2 Hm Hr) as (Hpt & _ & Hm1).
  apply reconcile_paired; [exact Hm1 |].
  intros k. rewrite Hpt. apply outcome_paired.
Qed.

Lemma reconcile_idempotent_witness :
  exists s1, reconcile mapKeys mapKeys ex_reconcile_engine = Ret None s1 /\
    reconcile mapKeys mapKeys s1 = Ret None s1.
Proof.
  eexists. split; [vm_compute; reflexivity |].
  exact (reconcile_idempotent mapKeys mapKeys mapKeys mapKeys ex_reconcile_engine _
           mapKeys_OrderOK mapKeys_OrderOK eq_refl (ltac:(vm_compute; reflexivity))).
Defined.

(* ------------------------------------------------------------------ *)
(** ** Debouncing (concurrency.go, config.go, NewSyncEngine) *)

(** [config.DefaultDebounceInterval = 500 * time.Millisecond], in ns. *)
Definition DefaultDebounceInterval : Z := 500000000.

(** The state [NewSyncEngine] returns (the version with workers): empty
    maps, [pendingEvents] made empty, [debounceInterval] left at its zero
    value, [stopCh] open. *)
Definition NewSyncEngine (localRoot remoteRoot : string) (ld rd : Disk) : SyncEngine :=
  mkEngine localRoot remoteRoot ld rd ∅ ∅ [] false false false [] [] 0%Z [] ∅ ∅ 0%Z false.

(** [shouldEnqueue], [time.Now()] returning [now]. *)
Definition shouldEnqueue (now : Z) (qe : QueuedEvent) : M bool :=
  fun s =>
    if String.eqb qe.(raw).(Name) "" then Ret false s
    else if s.(stopped) then Ret false s
    else
      let key := eventKey qe.(qe_isLocal) qe.(qe_relPath) in
      match s.(pendingEvents) !! key with
      | Some last =>
          if (now - last <? s.(debounceInterval))%Z then Ret false s
          else Ret true (setPending (<[key := now]> s.(pendingEvents)) s)
      | None => Ret true (setPending (<[key := now]> s.(pendingEvents)) s)
      end.

(** The admission checks of raw notifications for one key arriving at
    the times [ts], in order. *)
Fixpoint admitAll (ts : list Z) (qe : QueuedEvent) : M (list bool) :=
  match ts with
  | [] => ret []
  | t :: ts' =>
      let* b := shouldEnqueue t qe in
      let* bs := admitAll ts' qe in
      ret (b :: bs)
  end.

(** Monotonic clock readings. *)
Fixpoint nondecreasing (ts : list Z) : Prop :=
  match ts with
  | t1 :: ((t2 :: _) as ts') => (t1 <= t2)%Z /\ nondecreasing ts'
  | _ => True
  end.

Definition setDebounce (d : Z) (s : SyncEngine) : SyncEngine :=
  mkEngine s.(localRoot) s.(remoteRoot) s.(localDisk) s.(remoteDisk) s.(localMap) s.(remoteMap)
    s.(watched) s.(mu_held) s.(isPaused) s.(hasCallback) s.(notifications) s.(copies)
    s.(clock) s.(jobs) s.(perFileLocks) s.(pendingEvents) d s.(stopped).

Lemma admitAll_zero_interval ts qe s :
  qe.(raw).(Name) <> "" -> s.(stopped) = false -> s.(debounceInterval) = 0%Z ->
  nondecreasing ts ->
  (forall last t, hd_error ts = Some t ->
     s.(pendingEvents) !! eventKey qe.(qe_isLocal) qe.(qe_relPath) = Some last ->
     (last <= t)%Z) ->
  exists s', admitAll ts qe s = Ret (repeat true (length ts)) s'.
Proof.
  revert s. induction ts as [|t ts IH]; intros s Hn Hs Hd Hnd Hlast.
  - eexists. reflexivity.
  - cbn [admitAll]. unfold bind at 1, shouldEnqueue.
    apply String.eqb_neq in Hn. rewrite Hn, Hs.
    assert (Hnext : forall last t', hd_error ts = Some t' ->
      (<[eventKey (qe_isLocal qe) (qe_relPath qe) := t]> (pendingEvents s))
        !! eventKey (qe_isLocal qe) (qe_relPath qe) = Some last -> (last <= t')%Z).
    { intros last t' Ht' Hl. rewrite lookup_insert_eq in Hl. inversion Hl; subst.
      destruct ts as [|t2 ts]; [discriminate |]. cbn in Ht', Hnd. inversion Ht'; subst. lia. }
    assert (Hnd' : nondecreasing ts) by (destruct ts; [exact I | apply Hnd]).
    destruct (pendingEvents s !! _) as [last|] eqn:El.
    + assert (Hle : (last <= t)%Z) by (apply (Hlast last t); auto).
      rewrite Hd. replace ((t - last <? 0)%Z) with false by (symmetry; apply Z.ltb_ge; lia).
      destruct (IH (setPending _ s) (proj1 (String.eqb_neq _ _) Hn) Hs Hd Hnd' Hnext) as [s' Hs'].
      exists s'. unfold bind. rewrite Hs'. reflexivity.
    + destruct (IH (setPending _ s) (proj1 (String.eqb_neq _ _) Hn) Hs Hd Hnd' Hnext) as [s' Hs'].
      exists s'. unfold bind. rewrite Hs'. reflexivity.
Qed.

(** With the interval actually set, a burst inside the window after an
    admission is collapsed: the later checks all return [false] and leave
    the state as it is. *)
Lemma admitAll_window ts qe s t0 :
  qe.(raw).(Name) <> "" -> s.(stopped) = false ->
  s.(pendingEvents) !! eventKey qe.(qe_isLocal) qe.(qe_relPath) = Some t0 ->
  Forall (fun t => t0 <= t < t0 + s.(debounceInterval))%Z ts ->
  admitAll ts qe s = Ret (repeat false (length ts)) s.
Proof.
  intros Hn Hs Hl Hall. apply String.eqb_neq in Hn.
  induction Hall as [|t ts Ht Hall IH]; [reflexivity |].
  cbn [admitAll]. unfold bind at 1, shouldEnqueue. rewrite Hn, Hs, Hl.
  replace ((t - t0 <? debounceInterval s)%Z) with true by (symmetry; apply Z.ltb_lt; lia).
  unfold bind. cbn beta iota. rewrite IH. reflexivity.
Qed.

Lemma admitAll_debounced ts qe s t0 :
  qe.(raw).(Name) <> "" -> s.(stopped) = false ->
  s.(pendingEvents) !! eventKey qe.(qe_isLocal) qe.(qe_relPath) = None ->
  Forall (fun t => t0 <= t < t0 + s.(debounceInterval))%Z ts ->
  exists s', admitAll (t0 :: ts) qe s = Ret (true :: repeat false (length ts)) s'.
Proof.
  intros Hn Hs Hl Hall.
  cbn [admitAll]. unfold bind at 1, shouldEnqueue.
  pose proof Hn as Hn'. apply String.eqb_neq in Hn'. rewrite Hn', Hs, Hl.
  eexists. unfold bind.
  rewrite (admitAll_window ts qe
    (setPending (<[eventKey (qe_isLocal qe) (qe_relPath qe) := t0]> (pendingEvents s)) s) t0);
    [reflexivity | exact Hn | exact Hs | apply lookup_insert_eq | exact Hall].
Qed.

(** * C4 (code bug): the debounce never drops anything. [NewSyncEngine]
    leaves [debounceInterval] at zero ([DefaultDebounceInterval] is never
    used), so on an engine it returns, every raw notification for a key,
    at any nondecreasing times, however close, passes [shouldEnqueue]. *)
Theorem debounce_admits_every_event lr rr ld rd (qe : QueuedEvent) (ts : list Z) :
  qe.(raw).(Name) <> "" -> nondecreasing ts ->
  exists s', admitAll ts qe (NewSyncEngine lr rr ld rd) = Ret (repeat true (length ts)) s'.
Proof.
  intros Hn Hnd. apply admitAll_zero_interval; auto.
  intros last t _ Hl. cbn in Hl. rewrite lookup_empty in Hl. discriminate.
Qed.

Definition ex_burst_event : QueuedEvent :=
  mkQE (mkEvent "/srv/local_data/a.txt" Write) true "a.txt".

Lemma debounce_admits_every_event_witness :
  exists s', admitAll [0; 1000000; 2000000]%Z ex_burst_event
               (NewSyncEngine "/srv/local_data" "/srv/remote_data" ∅ ∅)
             = Ret [true; true; true] s'.
Proof.
  apply (debounce_admits_every_event "/srv/local_data" "/srv/remote_data" ∅ ∅
           ex_burst_event [0; 1000000; 2000000]%Z).
  - cbn. discriminate.
  - cbn. lia.
Defined.

(* ------------------------------------------------------------------ *)
(** ** Full scan (filesystem_provider.go: BuildStateMap) *)

(** A directory tree as [filepath.WalkDir] sees it, children in the
    lexical order [os.ReadDir] returns: a regular file (name, SHA-256,
    modification time), a file whose [os.Stat] fails (it vanished after
    being listed), a directory, and a directory that cannot be read. *)
Inductive node :=
| FileN (name hash : string) (mtime : Z)
| StatFailN (name : string)
| DirN (name : string) (cs : forest)
| BadDirN (name : string)
with forest :=
| FNil
| FCons (n : node) (rest : forest).

Scheme node_mut := Induction for node Sort Prop
with forest_mut := Induction for forest Sort Prop.

Definition nodeName (n : node) : string :=
  match n with FileN nm _ _ | StatFailN nm | DirN nm _ | BadDirN nm => nm end.

(** [len(base) > 0 && base[0] == '.'] *)
Definition hidden (base : string) : bool :=
  match base with
  | String c _ => Ascii.eqb c "."%char
  | EmptyString => false
  end.

(** [filepath.ToSlash(filepath.Rel(rootPath, path))] for the entry [name]
    of the directory at relative path [dir]. *)
Definition childPath (dir name : string) : string :=
  if String.eqb dir "." then name else dir ++ "/" ++ name.

(** The absolute path passed to the walk function. *)
Definition absPath (rootPath rel : string) : string :=
  if String.eqb rel "." then rootPath else rootPath ++ "/" ++ rel.

(** [filepath.WalkDir] with the walk function of [BuildStateMap], from the
    entry at relative path [path]; the first error stops the walk. *)
Fixpoint walkNode (rootPath path : string) (n : node) (stateMap : StateMap)
  {struct n} : StateMap + GoError :=
  match n with
  | FileN name h t =>
      if hidden name then inl stateMap
      else inl (<[path := mkMeta path h t]> stateMap)
  | StatFailN name =>
      if hidden name then inl stateMap
      else inr (WrapError ("error getting metadata for " ++ absPath rootPath path)
                  (WrapError ("error stating file " ++ absPath rootPath path)
                     (PathError "stat" (absPath rootPath path) ENOENT)))
  | DirN _ cs => walkForest rootPath path cs stateMap
  | BadDirN _ => inr (PathError "open" (absPath rootPath path) EACCES)
  end
with walkForest (rootPath dir : string) (cs : forest) (stateMap : StateMap)
  {struct cs} : StateMap + GoError :=
  match cs with
  | FNil => inl stateMap
  | FCons c rest =>
      match walkNode rootPath (childPath dir (nodeName c)) c stateMap with
      | inl m => walkForest rootPath dir rest m
      | inr e => inr e
      end
  end.

(** [BuildStateMap] on the tree [root] at [rootPath]. *)
Definition BuildStateMap (rootPath : string) (root : node) : StateMap + GoError :=
  match walkNode rootPath "." root ∅ with
  | inl m => inl m
  | inr e => inr (WrapError ("error walking directory " ++ rootPath) e)
  end.

(** The regular files of a tree: relative path, name, hash, time. *)
Fixpoint files (path : string) (n : node) : list (string * string * string * Z) :=
  match n with
  | FileN name h t => [(path, name, h, t)]
  | DirN _ cs => filesF path cs
  | _ => []
  end
with filesF (dir : string) (cs : forest) : list (string * string * string * Z) :=
  match cs with
  | FNil => []
  | FCons c rest => files (childPath dir (nodeName c)) c ++ filesF dir rest
  end.

(** A traversal failure somewhere in the tree: an unreadable directory, or
    a visible file that cannot be stat'ed. *)
Fixpoint hasFailure (n : node) : bool :=
  match n with
  | FileN _ _ _ => false
  | StatFailN name => negb (hidden name)
  | DirN _ cs => hasFailureF cs
  | BadDirN _ => true
  end
with hasFailureF (cs : forest) : bool :=
  match cs with
  | FNil => false
  | FCons c rest => hasFailure c || hasFailureF rest
  end.

(** What a successful walk over the files [fs] adds to [m]. *)
Definition WalkOK (fs : list (string * string * string * Z)) (m m' : StateMap) : Prop :=
  (forall k v, m' !! k = Some v ->
     m !! k = Some v \/
     exists nm h t, (k, nm, h, t) ∈ fs /\ hidden nm = false /\ v = mkMeta k h t) /\
  (forall k nm h t, (k, nm, h, t) ∈ fs -> hidden nm = false -> is_Some (m' !! k)) /\
  (forall k, is_Some (m !! k) -> is_Some (m' !! k)).

Lemma WalkOK_nil m : WalkOK [] m m.
Proof.
  repeat split; auto.
  - intros k nm h t Hin. inversion Hin.
Qed.

Lemma WalkOK_app fs1 fs2 m m1 m2 :
  WalkOK fs1 m m1 -> WalkOK fs2 m1 m2 -> WalkOK (fs1 ++ fs2) m m2.
Proof.
  intros (A1 & B1 & C1) (A2 & B2 & C2). split; [| split].
  - intros k v Hv. destruct (A2 k v Hv) as [Hv1 | (nm & h & t & Hin & Hh & ->)].
    + destruct (A1 k v Hv1) as [Hv0 | (nm & h & t & Hin & Hh & ->)]; [by left |].
      right. exists nm, h, t. rewrite elem_of_app. auto.
    + right. exists nm, h, t. rewrite elem_of_app. auto.
  - intros k nm h t Hin Hh. apply elem_of_app in Hin as [Hin | Hin]; eauto.
  - auto.
Qed.

Lemma walk_spec rootPath :
  forall n path m,
    match walkNode rootPath path n m with
    | inl m' => hasFailure n = false /\ WalkOK (files path n) m m'
    | inr _ => hasFailure n = true
    end.
Proof.
  apply (node_mut
    (fun n => forall path m,
       match walkNode rootPath path n m with
       | inl m' => hasFailure n = false /\ WalkOK (files path n) m m'
       | inr _ => hasFailure n = true
       end)
    (fun cs => forall dir m,
       match walkForest rootPath dir cs m with
       | inl m' => hasFailureF cs = false /\ WalkOK (filesF dir cs) m m'
       | inr _ => hasFailureF cs = true
       end)).
  - intros name h t path m. cbn. destruct (hidden name) eqn:Hh.
    + split; [reflexivity |]. split; [| split; auto].
      * intros k v Hv. by left.
      * intros k nm h' t' Hin Hh'. apply list_elem_of_singleton in Hin.
        inversion Hin; subst. congruence.
    + split; [reflexivity |]. split; [| split].
      * intros k v Hv. destruct (decide (k = path)) as [-> | Hne].
        -- rewrite lookup_insert_eq in Hv. inversion Hv; subst.
           right. exists name, h, t. split; [by apply list_elem_of_singleton | auto].
        -- rewrite lookup_insert_ne in Hv by congruence. by left.
      * intros k nm h' t' Hin _. apply list_elem_of_singleton in Hin.
        inversion Hin; subst. rewrite lookup_insert_eq. eauto.
      * intros k Hk. destruct (decide (k = path)) as [-> | Hne].
        -- rewrite lookup_insert_eq. eauto.
        -- rewrite lookup_insert_ne by congruence. exact Hk.
  - intros name path m. cbn. destruct (hidden name); cbn; [| reflexivity].
    split; [reflexivity | apply WalkOK_nil].
  - intros name cs IH path m. cbn. apply IH.
  - intros name path m. reflexivity.
  - intros dir m. cbn. split; [reflexivity | apply WalkOK_nil].
  - intros c IHc rest IHr dir m. cbn.
    specialize (IHc (childPath dir (nodeName c)) m).
    destruct (walkNode rootPath (childPath dir (nodeName c)) c m) as [m1 | e].
    + destruct IHc as [Hf1 Hok1]. specialize (IHr dir m1).
      destruct (walkForest rootPath dir rest m1) as [m2 | e].
      * destruct IHr as [Hf2 Hok2]. rewrite Hf1, Hf2.
        split; [reflexivity | exact (WalkOK_app _ _ _ _ _ Hok1 Hok2)].
      * rewrite Hf1. exact IHr.
    + rewrite IHc. reflexivity.
Qed.

(** * C7: the full scan visits the whole tree: it fails exactly when some
    directory cannot be read or some visible file cannot be stat'ed; on
    success every regular file whose name has no leading dot, at any depth,
    has an entry at its relative path, and every entry is the metadata of
    such a file (a file named with a leading dot never gives an entry; a
    directory is never an entry, and one named with a leading dot is still
    walked). *)
Theorem build_state_map_scan (rootPath : string) (root : node) :
  (hasFailure root = true <-> exists e, BuildStateMap rootPath root = inr e) /\
  forall m, BuildStateMap rootPath root = inl m ->
    (forall k nm h t, (k, nm, h, t) ∈ files "." root -> hidden nm = false ->
       is_Some (m !! k)) /\
    (forall k v, m !! k = Some v ->
       exists nm h t, (k, nm, h, t) ∈ files "." root /\ hidden nm = false /\
         v = mkMeta k h t).
Proof.
  pose proof (walk_spec rootPath root "." ∅) as Hw.
  unfold BuildStateMap.
  destruct (walkNode rootPath "." root ∅) as [m' | e].
  - destruct Hw as [Hf (A & B & _)]. split.
    + rewrite Hf. split; [discriminate | intros [e He]; discriminate].
    + intros m Hm. inversion Hm; subst m. split; [exact B |].
      intros k v Hv. destruct (A k v Hv) as [He | Hx]; [rewrite lookup_empty in He; discriminate |].
      exact Hx.
  - split.
    + rewrite Hw. split; [intros _; eauto | reflexivity].
    + intros m Hm. discriminate.
Qed.

(* A tree with a nested file, a hidden file and a hidden directory. *)
Definition ex_tree : node :=
  DirN "local_data"
    (FCons (FileN ".DS_Store" "h0" 1%Z)
    (FCons (DirN ".git" (FCons (FileN "config" "h1" 2%Z) FNil))
    (FCons (DirN "docs" (FCons (FileN "a.txt" "h2" 3%Z) FNil)) FNil))).

Definition ex_tree_map : StateMap :=
  {[ "docs/a.txt" := mkMeta "docs/a.txt" "h2" 3%Z;
     ".git/config" := mkMeta ".git/config" "h1" 2%Z ]}.

Lemma build_state_map_scan_witness :
  BuildStateMap "/srv/local_data" ex_tree = inl ex_tree_map /\
  is_Some (ex_tree_map !! "docs/a.txt").
Proof.
  split; [vm_compute; reflexivity |].
  apply (proj1 (proj2 (build_state_map_scan "/srv/local_data" ex_tree) _
                 (ltac:(vm_compute; reflexivity))) "docs/a.txt" "a.txt" "h2" 3%Z).
  - vm_compute. repeat constructor.
  - reflexivity.
Defined.

(* ------------------------------------------------------------------ *)
(** ** Concurrent workers (concurrency.go): interleaving of goroutines *)

(** Where a worker goroutine is: waiting on [s.jobs], inside
    [processEventWithLock] before [lock.Lock()] returned, or holding the
    lock of [event.relPath] while [handleQueuedEvent] runs. *)
Inductive WState :=
| Idle
| Acquiring (qe : QueuedEvent)
| Running (qe : QueuedEvent).

Record Pool := mkPool {
  workers : list WState;
  plocks : gmap string bool;    (* perFileLocks: is the mutex held *)
  pjobs : list QueuedEvent      (* s.jobs *)
}.

(** One step of one goroutine. *)
Inductive poolStep : Pool -> Pool -> Prop :=
| ps_enqueue p qe :
    (* the watcher sends a job on [s.jobs] *)
    poolStep p (mkPool p.(workers) p.(plocks) (p.(pjobs) ++ [qe]))
| ps_receive p i qe rest :
    (* [case qe, ok := <-s.jobs] with a non-empty name; [lockFor] *)
    p.(workers) !! i = Some Idle -> p.(pjobs) = qe :: rest ->
    qe.(raw).(Name) <> "" ->
    poolStep p (mkPool (<[i := Acquiring qe]> p.(workers)) p.(plocks) rest)
| ps_skip p i qe rest :
    (* [if qe.raw.Name == "" { continue }] *)
    p.(workers) !! i = Some Idle -> p.(pjobs) = qe :: rest ->
    qe.(raw).(Name) = "" ->
    poolStep p (mkPool p.(workers) p.(plocks) rest)
| ps_lock p i qe :
    (* [lock.Lock()] returns once the mutex is free *)
    p.(workers) !! i = Some (Acquiring qe) ->
    p.(plocks) !! qe.(qe_relPath) <> Some true ->
    poolStep p (mkPool (<[i := Running qe]> p.(workers))
                  (<[qe.(qe_relPath) := true]> p.(plocks)) p.(pjobs))
| ps_unlock p i qe :
    (* [handleQueuedEvent] returned; the deferred [lock.Unlock()] *)
    p.(workers) !! i = Some (Running qe) ->
    poolStep p (mkPool (<[i := Idle]> p.(workers))
                  (<[qe.(qe_relPath) := false]> p.(plocks)) p.(pjobs)).

(** [Run] starting [workerCount] workers with [perFileLocks] empty. *)
Definition initPool (workerCount : nat) (jobs : list QueuedEvent) : Pool :=
  mkPool (replicate workerCount Idle) ∅ jobs.

Definition PoolInv (p : Pool) : Prop :=
  (forall i qe, p.(workers) !! i = Some (Running qe) ->
     p.(plocks) !! qe.(qe_relPath) = Some true) /\
  (forall i j qi qj, p.(workers) !! i = Some (Running qi) ->
     p.(workers) !! j = Some (Running qj) ->
     qi.(qe_relPath) = qj.(qe_relPath) -> i = j).

Lemma PoolInv_init n jobs : PoolInv (initPool n jobs).
Proof.
  split.
  - intros i qe H. cbn in H. apply lookup_replicate in H as [H _]. discriminate.
  - intros i j qi qj H. cbn in H. apply lookup_replicate in H as [H _]. discriminate.
Qed.

Lemma poolStep_inv p p' : poolStep p p' -> PoolInv p -> PoolInv p'.
Proof.
  intros Hs [HL HU]. destruct Hs as [p qe | p i qe rest Hi Hj Hn | p i qe rest Hi Hj Hn
                                   | p i qe Hi Hfree | p i qe Hi]; unfold PoolInv; cbn.
  - split; eauto.
  - split.
    + intros j q Hq. apply list_lookup_insert_Some in Hq as [(_ & Hx & _) | (_ & Hq)];
        [discriminate | eauto].
    + intros j k qj qk Hj' Hk' Heq.
      apply list_lookup_insert_Some in Hj' as [(_ & Hx & _) | (_ & Hj')]; [discriminate |].
      apply list_lookup_insert_Some in Hk' as [(_ & Hx & _) | (_ & Hk')]; [discriminate |].
      eauto.
  - split; eauto.
  - split.
    + intros j q Hq. apply list_lookup_insert_Some in Hq as [(_ & Hx & _) | (_ & Hq)].
      * inversion Hx; subst. apply lookup_insert_eq.
      * destruct (decide (qe_relPath qe = qe_relPath q)) as [Heq | Hne].
        -- rewrite Heq. apply lookup_insert_eq.
        -- rewrite lookup_insert_ne by exact Hne. eauto.
    + intros j k qj qk Hj' Hk' Heq.
      apply list_lookup_insert_Some in Hj' as [(Hij & Hx & _) | (Hij & Hj')];
      apply list_lookup_insert_Some in Hk' as [(Hik & Hy & _) | (Hik & Hk')].
      * congruence.
      * inversion Hx; subst. exfalso. apply Hfree. rewrite Heq. eauto.
      * inversion Hy; subst. exfalso. apply Hfree. rewrite <- Heq. eauto.
      * eauto.
  - split.
    + intros j q Hq. apply list_lookup_insert_Some in Hq as [(_ & Hx & _) | (Hij & Hq)];
        [discriminate |].
      destruct (decide (qe_relPath qe = qe_relPath q)) as [Heq | Hne].
      * exfalso. apply Hij. exact (HU _ _ _ _ Hi Hq Heq).
      * rewrite lookup_insert_ne by exact Hne. eauto.
    + intros j k qj qk Hj' Hk' Heq.
      apply list_lookup_insert_Some in Hj' as [(_ & Hx & _) | (_ & Hj')]; [discriminate |].
      apply list_lookup_insert_Some in Hk' as [(_ & Hx & _) | (_ & Hk')]; [discriminate |].
      eauto.
Qed.

(** * C9: at every point of any interleaving of the workers, two workers
    running the synchronization steps of events with the same relative
    path are the same worker, whichever sides the events come from: the
    lock of [perFileLocks] is keyed by the relative path alone. *)
Theorem same_path_steps_exclusive (n : nat) (jobs : list QueuedEvent) (p : Pool)
    (i j : nat) (qi qj : QueuedEvent) :
  rtc poolStep (initPool n jobs) p ->
  p.(workers) !! i = Some (Running qi) ->
  p.(workers) !! j = Some (Running qj) ->
  qi.(qe_relPath) = qj.(qe_relPath) ->
  i = j.
Proof.
  intros Hr. assert (Hinv : PoolInv p).
  { remember (initPool n jobs) as p0 eqn:E.
    assert (H0 : PoolInv p0) by (subst; apply PoolInv_init).
    clear E. induction Hr as [x | x y z Hxy Hyz IH]; [exact H0 |].
    apply IH. exact (poolStep_inv x y Hxy H0). }
  exact (proj2 Hinv i j qi qj).
Qed.

Definition ex_local_job : QueuedEvent :=
  mkQE (mkEvent "/srv/local_data/a.txt" Write) true "a.txt".
Definition ex_remote_job : QueuedEvent :=
  mkQE (mkEvent "/srv/remote_data/a.txt" Write) false "a.txt".

(* Two workers take the local and the remote job for a.txt; the first
   holds the lock, the second waits for it. *)
Definition ex_pool_running : Pool :=
  mkPool [Running ex_local_job; Acquiring ex_remote_job] {[ "a.txt" := true ]} [].

Lemma same_path_steps_exclusive_witness :
  rtc poolStep (initPool 2 [ex_local_job; ex_remote_job]) ex_pool_running /\
  (0 : nat) = 0%nat.
Proof.
  assert (Hr : rtc poolStep (initPool 2 [ex_local_job; ex_remote_job]) ex_pool_running).
  { eapply rtc_l.
    { apply (ps_receive _ 0 ex_local_job [ex_remote_job]); [reflexivity | reflexivity | cbn; discriminate]. }
    eapply rtc_l.
    { apply (ps_receive _ 1 ex_remote_job []); [reflexivity | reflexivity | cbn; discriminate]. }
    eapply rtc_l.
    { apply (ps_lock _ 0 ex_local_job); [reflexivity | cbn; discriminate]. }
    apply rtc_refl. }
  split; [exact Hr |].
  exact (same_path_steps_exclusive 2 [ex_local_job; ex_remote_job] ex_pool_running 0 0
           ex_local_job ex_local_job Hr eq_refl eq_refl eq_refl).
Defined.

(* ------------------------------------------------------------------ *)
(** ** File listing (GetFileList) *)

Record FileInfo := mkInfo {
  fi_RelativePath : string;
  fi_Hash : string;
  fi_ModTime : string;
  fi_Location : string
}.

Section Listing.
(** [meta.ModTime.Format(layout)]; the versions of the engine differ
    only in the layout. *)
Variable formatTime : Z -> string.

(** Body of the loop over [s.localMap]. *)
Definition localEntry (localMap : StateMap) (fileSet : gmap string FileInfo)
    (relPath : string) : gmap string FileInfo :=
  match localMap !! relPath with
  | Some meta =>
      <[relPath := mkInfo relPath meta.(Hash) (formatTime meta.(ModTime)) "local"]> fileSet
  | None => fileSet
  end.

(** Body of the loop over [s.remoteMap]. *)
Definition remoteEntry (remoteMap : StateMap) (fileSet : gmap string FileInfo)
    (relPath : string) : gmap string FileInfo :=
  match remoteMap !! relPath with
  | None => fileSet
  | Some meta =>
      match fileSet !! relPath with
      | Some existing =>
          if String.eqb existing.(fi_Hash) meta.(Hash) then
            <[relPath := mkInfo existing.(fi_RelativePath) existing.(fi_Hash)
                           existing.(fi_ModTime) "both"]> fileSet
          else fileSet
      | None =>
          <[relPath := mkInfo relPath meta.(Hash) (formatTime meta.(ModTime)) "remote"]> fileSet
      end
  end.

(** [GetFileList], the two [range] loops in the orders [ord1] and
    [ord2]; the values of [fileSet] are listed in the order of
    [map_to_list] (Go's order is unspecified). *)
Definition GetFileList (ord1 ord2 : StateMap -> list string) (s : SyncEngine)
    : list FileInfo :=
  let fileSet := foldl (localEntry s.(localMap)) ∅ (ord1 s.(localMap)) in
  let fileSet := foldl (remoteEntry s.(remoteMap)) fileSet (ord2 s.(remoteMap)) in
  (map_to_list fileSet).*2.

(** What the loop bodies do at their key. *)
Definition localInfo (localMap : StateMap) (k : string) (o : option FileInfo)
    : option FileInfo :=
  match localMap !! k with
  | Some meta => Some (mkInfo k meta.(Hash) (formatTime meta.(ModTime)) "local")
  | None => o
  end.

Definition remoteInfo (remoteMap : StateMap) (k : string) (o : option FileInfo)
    : option FileInfo :=
  match remoteMap !! k with
  | None => o
  | Some meta =>
      match o with
      | Some ex =>
          if String.eqb ex.(fi_Hash) meta.(Hash) then
            Some (mkInfo ex.(fi_RelativePath) ex.(fi_Hash) ex.(fi_ModTime) "both")
          else o
      | None => Some (mkInfo k meta.(Hash) (formatTime meta.(ModTime)) "remote")
      end
  end.

Lemma foldl_pointwise (body : gmap string FileInfo -> string -> gmap string FileInfo)
    (f : string -> option FileInfo -> option FileInfo) :
  (forall fs k, body fs k !! k = f k (fs !! k)) ->
  (forall fs k j, j <> k -> body fs k !! j = fs !! j) ->
  forall ks, NoDup ks -> forall fs j,
    foldl body fs ks !! j = if bool_decide (j ∈ ks) then f j (fs !! j) else fs !! j.
Proof.
  intros Heq Hne ks Hnd. induction Hnd as [| k ks Hk Hnd IH]; intros fs j.
  - cbn. reflexivity.
  - cbn. rewrite IH. destruct (decide (j = k)) as [-> | Hjk].
    + rewrite bool_decide_false by exact Hk. rewrite bool_decide_true by set_solver.
      apply Heq.
    + rewrite Hne by exact Hjk.
      destruct (bool_decide (j ∈ ks)) eqn:E1.
      * apply bool_decide_eq_true in E1. rewrite bool_decide_true by set_solver.
        reflexivity.
      * apply bool_decide_eq_false in E1. rewrite bool_decide_false by set_solver.
        reflexivity.
Qed.

Lemma localEntry_at m fs k : localEntry m fs k !! k = localInfo m k (fs !! k).
Proof.
  unfold localEntry, localInfo. destruct (m !! k); [apply lookup_insert_eq | reflexivity].
Qed.

Lemma localEntry_other m fs k j : j <> k -> localEntry m fs k !! j = fs !! j.
Proof.
  intros H. unfold localEntry. destruct (m !! k); [| reflexivity].
  apply lookup_insert_ne. congruence.
Qed.

Lemma remoteEntry_at m fs k : remoteEntry m fs k !! k = remoteInfo m k (fs !! k).
Proof.
  unfold remoteEntry, remoteInfo. destruct (m !! k); [| reflexivity].
  destruct (fs !! k) as [ex|] eqn:E; [| apply lookup_insert_eq].
  destruct (String.eqb _ _); [apply lookup_insert_eq | exact E].
Qed.

Lemma remoteEntry_other m fs k j : j <> k -> remoteEntry m fs k !! j = fs !! j.
Proof.
  intros H. unfold remoteEntry. destruct (m !! k); [| reflexivity].
  destruct (fs !! k); [destruct (String.eqb _ _); [| reflexivity] |];
    apply lookup_insert_ne; congruence.
Qed.

Lemma GetFileList_fileSet ord1 ord2 s :
  OrderOK ord1 -> OrderOK ord2 ->
  let fileSet := foldl (remoteEntry s.(remoteMap))
                   (foldl (localEntry s.(localMap)) ∅ (ord1 s.(localMap)))
                   (ord2 s.(remoteMap)) in
  forall k, fileSet !! k = remoteInfo s.(remoteMap) k (localInfo s.(localMap) k None).
Proof.
  intros Ho1 Ho2 fileSet k. subst fileSet.
  destruct (Ho1 s.(localMap)) as [Hnd1 Hin1]. destruct (Ho2 s.(remoteMap)) as [Hnd2 Hin2].
  rewrite (foldl_pointwise _ _ (remoteEntry_at _) (remoteEntry_other _) _ Hnd2).
  rewrite (foldl_pointwise _ _ (localEntry_at _) (localEntry_other _) _ Hnd1).
  rewrite lookup_empty.
  assert (E1 : localInfo (localMap s) k None = None \/ k ∈ ord1 (localMap s)).
  { unfold localInfo. destruct (localMap s !! k) eqn:E; [right; apply Hin1; rewrite E; eauto | auto]. }
  assert (E2 : forall o, remoteInfo (remoteMap s) k o = o \/ k ∈ ord2 (remoteMap s)).
  { intros o. unfold remoteInfo. destruct (remoteMap s !! k) eqn:E; [right; apply Hin2; rewrite E; eauto | auto]. }
  destruct (bool_decide (k ∈ ord1 (localMap s))) eqn:B1.
  - destruct (bool_decide (k ∈ ord2 (remoteMap s))) eqn:B2; [reflexivity |].
    apply bool_decide_eq_false in B2.
    destruct (E2 (localInfo (localMap s) k None)) as [-> | E2']; [reflexivity | contradiction].
  - apply bool_decide_eq_false in B1. destruct E1 as [-> | E1]; [| contradiction].
    destruct (bool_decide (k ∈ ord2 (remoteMap s))) eqn:B2; [reflexivity |].
    apply bool_decide_eq_false in B2.
    destruct (E2 None) as [-> | E2']; [reflexivity | contradiction].
Qed.

Lemma filter_all_False {A} (P : A -> Prop) `{forall x, Decision (P x)} (l : list A) :
  (forall x, x ∈ l -> ~ P x) -> filter P l = [].
Proof.
  induction l as [| y l IH]; intros Hl; [reflexivity |].
  rewrite filter_cons_False by (apply Hl; constructor).
  apply IH. intros x Hx. apply Hl. by constructor.
Qed.

Lemma filter_values (fs : gmap string FileInfo) :
  (forall k v, fs !! k = Some v -> fi_RelativePath v = k) ->
  forall p v, fs !! p = Some v ->
    filter (fun fi => fi_RelativePath fi = p) ((map_to_list fs).*2) = [v].
Proof.
  induction fs as [| i x m Hi IH] using map_ind; intros Hk p v Hv.
  - rewrite lookup_empty in Hv. discriminate.
  - apply Permutation_singleton_r.
    assert (Hk' : forall k w, m !! k = Some w -> fi_RelativePath w = k).
    { intros k w Hw. apply Hk. rewrite lookup_insert_ne; [exact Hw | congruence]. }
    etrans.
    { apply filter_Permutation, fmap_Permutation, map_to_list_insert, Hi. }
    cbn. destruct (decide (i = p)) as [-> | Hne].
    + rewrite lookup_insert_eq in Hv. inversion Hv; subst x.
      rewrite decide_True by (apply Hk; apply lookup_insert_eq).
      apply Permutation_singleton_r. f_equal.
      apply filter_all_False. intros w Hw Hp.
      apply list_elem_of_fmap in Hw as [[k w'] [-> Hkw]].
      apply elem_of_map_to_list in Hkw. cbn in Hp.
      rewrite (Hk' _ _ Hkw) in Hp. subst k. congruence.
    + rewrite decide_False by (rewrite (Hk i x (lookup_insert_eq _ _ _)); exact Hne).
      rewrite lookup_insert_ne in Hv by exact Hne.
      apply Permutation_singleton_r. apply (IH Hk' p v Hv).
Qed.
End Listing.

Lemma fileSet_keys formatTime (lm rm : StateMap) k v :
  remoteInfo formatTime rm k (localInfo formatTime lm k None) = Some v -> fi_RelativePath v = k.
Proof.
  unfold remoteInfo, localInfo.
  destruct (rm !! k); destruct (lm !! k); cbn; intros H; try (inversion H; reflexivity).
  destruct (String.eqb _ _); inversion H; reflexivity.
Qed.

(** * C10: in the listing, a path present in both maps is reported exactly
    once: with location "both" when the two hashes are equal, and
    otherwise with location "local" and the local hash and modification
    time, the remote entry having no line of its own. *)
Theorem listing_both_iff_equal_hash (formatTime : Z -> string) ord1 ord2
    (s : SyncEngine) (p : string) (lm rm : FileMetadata) :
  OrderOK ord1 -> OrderOK ord2 ->
  s.(localMap) !! p = Some lm -> s.(remoteMap) !! p = Some rm ->
  (lm.(Hash) = rm.(Hash) ->
     filter (fun fi => fi_RelativePath fi = p) (GetFileList formatTime ord1 ord2 s) =
       [mkInfo p lm.(Hash) (formatTime lm.(ModTime)) "both"]) /\
  (lm.(Hash) <> rm.(Hash) ->
     filter (fun fi => fi_RelativePath fi = p) (GetFileList formatTime ord1 ord2 s) =
       [mkInfo p lm.(Hash) (formatTime lm.(ModTime)) "local"]).
Proof.
  intros Ho1 Ho2 Hl Hr.
  pose proof (GetFileList_fileSet formatTime ord1 ord2 s Ho1 Ho2) as Hfs. cbn zeta in Hfs.
  unfold GetFileList.
  set (fs := foldl (remoteEntry formatTime (remoteMap s))
               (foldl (localEntry formatTime (localMap s)) ∅ (ord1 (localMap s)))
               (ord2 (remoteMap s))) in *.
  assert (Hkeys : forall k v, fs !! k = Some v -> fi_RelativePath v = k).
  { intros k v Hv. rewrite Hfs in Hv. exact (fileSet_keys _ _ _ _ _ Hv). }
  assert (Hp : fs !! p = remoteInfo formatTime (remoteMap s) p (localInfo formatTime (localMap s) p None))
    by apply Hfs.
  unfold remoteInfo, localInfo in Hp. rewrite Hl, Hr in Hp. cbn in Hp.
  split; intros Hh.
  - rewrite (proj2 (String.eqb_eq _ _) Hh) in Hp.
    exact (filter_values _ Hkeys p _ Hp).
  - rewrite (proj2 (String.eqb_neq _ _) Hh) in Hp.
    exact (filter_values _ Hkeys p _ Hp).
Qed.

Definition ex_format (t : Z) : string := "2025-01-01 00:00:00".

Lemma listing_both_iff_equal_hash_witness :
  filter (fun fi => fi_RelativePath fi = "a.txt")
    (GetFileList ex_format mapKeys mapKeys ex_reconcile_engine) =
    [mkInfo "a.txt" "hL" "2025-01-01 00:00:00" "local"].
Proof.
  apply (proj2 (listing_both_iff_equal_hash ex_format mapKeys mapKeys ex_reconcile_engine "a.txt"
                  (mkMeta "a.txt" "hL" 9%Z) (mkMeta "a.txt" "hR" 5%Z)
                  mapKeys_OrderOK mapKeys_OrderOK (ltac:(vm_compute; reflexivity))
                  (ltac:(vm_compute; reflexivity)))).
  cbn. discriminate.
Defined.

(* ------------------------------------------------------------------ *)
(** ** Further properties of the synchronization step *)

Lemma sideDisk_addCopy c b s : sideDisk b (addCopy c s) = sideDisk b s.
Proof. destruct b; reflexivity. Qed.

Lemma sideDisk_setSideDisk_same b d s : sideDisk b (setSideDisk b d s) = d.
Proof. destruct b; reflexivity. Qed.

Lemma sideDisk_setSideDisk_other b d s : sideDisk (negb b) (setSideDisk b d s) = sideDisk (negb b) s.
Proof. destruct b; reflexivity. Qed.


(** The effect of a successful [syncFileToDestination] of the source file
    [P] (content [h], metadata [meta]): both map entries become [meta],
    the destination file gets the content and the modification time (the
    copy time if that is zero), the source side is untouched, the copy is
    recorded and one "sync" notification is emitted. *)
Definition SyncedTo (isLocal : bool) (P : string) (meta : FileMetadata) (h : string)
    (s s' : SyncEngine) : Prop :=
  s'.(localMap) = <[P := meta]> s.(localMap) /\
  s'.(remoteMap) = <[P := meta]> s.(remoteMap) /\
  sideDisk isLocal s' = sideDisk isLocal s /\
  sideDisk (negb isLocal) s' =
    <[P := FileF h (if (meta.(ModTime) =? 0)%Z then s.(clock) else meta.(ModTime))]>
      (sideDisk (negb isLocal) s) /\
  s'.(copies) = (s.(copies) ++ [(isLocal, P)])%list /\
  s'.(notifications) = (s.(notifications) ++
    (if s.(hasCallback)
     then [mkNote "sync" P (getDirection isLocal) ("File synced: " ++ P)] else []))%list.



(** The copying branch of the metadata comparison. *)
Lemma compareAndSync_copy isLocal rel srcMeta s :
  (sideMap (negb isLocal) s !! rel = None \/
   exists dm, sideMap (negb isLocal) s !! rel = Some dm /\
     dm.(Hash) <> srcMeta.(Hash) /\ (dm.(ModTime) < srcMeta.(ModTime))%Z) ->
  compareAndSync isLocal rel srcMeta s = syncFileToDestination isLocal rel srcMeta s.
Proof.
  intros [Hn | (dm & Hd & Hh & Ht)]; unfold compareAndSync, bind, get.
  - rewrite Hn. reflexivity.
  - rewrite Hd. cbn.
    destruct (String.eqb_spec (Hash srcMeta) (Hash dm)); [congruence |]. cbn.
    replace (ModTime dm <? ModTime srcMeta)%Z with true by (symmetry; apply Z.ltb_lt; lia).
    reflexivity.
Qed.


Definition ex_fresh_engine : SyncEngine :=
  sampleEngine {[ "a.txt" := FileF "h1" 5%Z ]} ∅ ∅ ∅.


Lemma DeleteFile_lookup d rel k :
  (FS.DeleteFile d rel).1 !! k = if FS.under rel k then None else d !! k.
Proof.
  unfold FS.DeleteFile. cbn. rewrite map_lookup_filter.
  destruct (d !! k) eqn:E; cbn; destruct (FS.under rel k) eqn:F; cbn;
    simplify_option_eq; reflexivity || congruence.
Qed.

(** The notification of [handleDeleteOrRenameEvent]. *)
Definition deleteNote (op : Z) (rel : string) (isLocal : bool) : Notification :=
  if has_op op Rename
  then mkNote "move" rel (getDirection isLocal) ("File moved or renamed: " ++ rel)
  else mkNote "delete" rel (getDirection isLocal) ("File deleted: " ++ rel).

(** A remove or rename event (without the create bit) on [P] removes the
    entry for [P] from both maps and only that entry (entries below a
    deleted directory stay), removes everything at or below [P] on the
    destination side, leaves the source side's files as they were, copies
    nothing, emits one "move" (rename bit set) or "delete" notification
    and releases [s.mu]. *)
Theorem delete_event_removes (ev : Event) (s : SyncEngine) (isLocal : bool) (P : string) :
  s.(isPaused) = false -> s.(mu_held) = false ->
  determineEventSource s.(localRoot) s.(remoteRoot) ev.(Name) = inl (isLocal, P) ->
  has_op ev.(Op) Create = false ->
  has_op ev.(Op) Remove || has_op ev.(Op) Rename = true ->
  exists s', handleEvent ev s = Ret None s' /\
    s'.(localMap) = delete P s.(localMap) /\
    s'.(remoteMap) = delete P s.(remoteMap) /\
    sideDisk isLocal s' = sideDisk isLocal s /\
    (forall k, sideDisk (negb isLocal) s' !! k =
               if FS.under P k then None else sideDisk (negb isLocal) s !! k) /\
    s'.(copies) = s.(copies) /\
    s'.(notifications) = (s.(notifications) ++
      (if s.(hasCallback) then [deleteNote ev.(Op) P isLocal] else []))%list /\
    s'.(mu_held) = false.
Proof.
  intros Hp Hm Hsrc Hc Hrr.
  rewrite (handleEvent_dispatch ev s isLocal P Hp Hsrc), Hc, Hrr.
  unfold handleDeleteOrRenameEvent, with_mu, lock_mu, bind, unlock_mu, modify,
    mapDelete, emit, ret.
  rewrite Hm. unfold deleteNote.
  destruct (has_op (Op ev) Rename); eexists; (split; [reflexivity |]);
    destruct isLocal, (hasCallback s) eqn:Hcb; cbn -[delete FS.DeleteFile];
    rewrite ?Hcb, ?app_nil_r; (split; [reflexivity |]); (split; [reflexivity |]);
    (split; [reflexivity |]); (split; [intros k; apply DeleteFile_lookup |]);
    repeat split.
Qed.

Definition ex_delete_engine : SyncEngine :=
  sampleEngine {[ "d/x.txt" := FileF "h1" 5%Z ]}
    {[ "d" := DirF; "d/x.txt" := FileF "h1" 5%Z ]}
    {[ "d" := mkMeta "d" "" 4%Z; "d/x.txt" := mkMeta "d/x.txt" "h1" 5%Z ]}
    {[ "d" := mkMeta "d" "" 4%Z; "d/x.txt" := mkMeta "d/x.txt" "h1" 5%Z ]}.

Lemma delete_event_removes_witness :
  exists s', handleEvent (mkEvent "/srv/local_data/d" Remove) ex_delete_engine = Ret None s' /\
    s'.(localMap) = delete "d" ex_delete_engine.(localMap) /\
    s'.(remoteMap) = delete "d" ex_delete_engine.(remoteMap) /\
    sideDisk true s' = sideDisk true ex_delete_engine /\
    (forall k, sideDisk false s' !! k =
               if FS.under "d" k then None else sideDisk false ex_delete_engine !! k) /\
    s'.(copies) = ex_delete_engine.(copies) /\
    s'.(notifications) = (ex_delete_engine.(notifications) ++
      (if ex_delete_engine.(hasCallback) then [deleteNote Remove "d" true] else []))%list /\
    s'.(mu_held) = false.
Proof.
  apply (delete_event_removes (mkEvent "/srv/local_data/d" Remove) _ true "d");
    reflexivity.
Defined.

(* ------------------------------------------------------------------ *)
(** ** Event categorization (utils.go, the engine file) *)

(** The [resolve] closure of [whichSideAndRel] for one root. *)
Definition resolve (root cleanPath : string) : bool * string :=
  let rel := filepath_Rel root cleanPath in
  if String.eqb rel "." then (true, "")
  else if String.eqb rel ".." || String.prefix "../" rel then (false, "")
  else (true, rel).

(** [whichSideAndRel] *)
Definition whichSideAndRel (localRoot remoteRoot absPath : string) : bool * string :=
  match resolve localRoot absPath with
  | (true, rel) => (true, rel)
  | (false, _) =>
      match resolve remoteRoot absPath with
      | (true, rel) => (false, rel)
      | (false, _) => (false, "")
      end
  end.

(** [categorizeEvent], [time.Now()] returning [now]; [None] is
    [(queuedEvent{}, false)]. *)
Definition categorizeEvent (now : Z) (ev : Event) : M (option QueuedEvent) :=
  if String.eqb ev.(Name) "" then ret None else
  let* s := get in
  let '(isLocal, rel) := whichSideAndRel s.(localRoot) s.(remoteRoot) ev.(Name) in
  if String.eqb rel "" then ret None else
  let qe := mkQE ev isLocal rel in
  let* ok := shouldEnqueue now qe in
  if ok then ret (Some qe) else ret None.

Lemma str_nil_app b : ("" ++ b) = b.
Proof. reflexivity. Qed.

Lemma str_cons_app c a b : (String c a ++ b) = String c (a ++ b).
Proof. reflexivity. Qed.

Lemma str_app_length a b : String.length (a ++ b) = (String.length a + String.length b)%nat.
Proof. induction a; rewrite ?str_nil_app, ?str_cons_app; cbn; congruence. Qed.

Lemma str_app_assoc a b c : ((a ++ b) ++ c) = (a ++ b ++ c).
Proof. induction a; rewrite ?str_nil_app, ?str_cons_app; congruence. Qed.

Lemma str_substring_all s m : (String.length s <= m)%nat -> substring 0 m s = s.
Proof.
  revert m. induction s; intros [|m] Hl; cbn in *; try reflexivity; try lia.
  rewrite IHs by lia. reflexivity.
Qed.

Lemma str_substring_under r nm m :
  substring (String.length r + 1) m (r ++ "/" ++ nm) = substring 0 m nm.
Proof. induction r; rewrite ?str_nil_app, ?str_cons_app; [reflexivity | exact IHr]. Qed.

Lemma str_prefix_app a b c : String.prefix (a ++ b) (a ++ c) = String.prefix b c.
Proof.
  induction a; rewrite ?str_nil_app, ?str_cons_app; [reflexivity |]. cbn.
  destruct (ascii_dec a a); [exact IHa | congruence].
Qed.

Lemma str_prefix_refl_app a b : String.prefix a (a ++ b) = true.
Proof.
  induction a as [|c a IH].
  - destruct b; reflexivity.
  - rewrite str_cons_app. cbn. destruct (ascii_dec c c); [exact IH | congruence].
Qed.

Lemma str_prefix_split p s m :
  String.prefix p s = true -> (String.length s <= String.length p + m)%nat ->
  s = p ++ substring (String.length p) m s.
Proof.
  revert s. induction p as [|a p IH]; intros s Hp Hl; cbn in *.
  - rewrite str_nil_app. symmetry. apply str_substring_all. exact Hl.
  - destruct s as [|b s]; cbn in Hp; [discriminate |].
    destruct (ascii_dec a b); [subst | discriminate].
    cbn in Hl. rewrite str_cons_app. f_equal. apply IH; [exact Hp | lia].
Qed.

(** [filepath.Rel] of a path below the root gives the remainder. *)
Lemma filepath_Rel_under r nm : filepath_Rel r (r ++ "/" ++ nm) = nm.
Proof.
  unfold filepath_Rel.
  destruct (String.eqb_spec r (r ++ "/" ++ nm)) as [E|_].
  - exfalso. apply (f_equal String.length) in E.
    rewrite !str_app_length in E. cbn in E. lia.
  - rewrite str_prefix_app, str_prefix_refl_app.
    rewrite str_substring_under. apply str_substring_all.
    rewrite !str_app_length. cbn. lia.
Qed.

Lemma filepath_Rel_cases root target :
  filepath_Rel root target = "." \/
  (String.prefix (root ++ "/") target = true /\
   filepath_Rel root target = substring (String.length root + 1) (String.length target) target) \/
  String.prefix "../" (filepath_Rel root target) = true.
Proof.
  unfold filepath_Rel.
  destruct (String.eqb root target); [left; reflexivity |].
  destruct (String.prefix (root ++ "/") target) eqn:E; [right; left; split; reflexivity |].
  right; right. apply str_prefix_refl_app.
Qed.

(** What [resolve] accepts with a non-empty path lies below the root. *)
Lemma resolve_below root name rel :
  resolve root name = (true, rel) -> rel <> "" -> name = root ++ "/" ++ rel.
Proof.
  unfold resolve. intros H Hne.
  destruct (filepath_Rel_cases root name) as [E | [[Hp E] | E]].
  - rewrite E in H. cbn in H. congruence.
  - destruct (String.eqb (filepath_Rel root name) ".") eqn:E1; [congruence |].
    destruct (String.eqb (filepath_Rel root name) ".." || String.prefix "../" (filepath_Rel root name));
      [discriminate |].
    injection H as <-. rewrite E, <- str_app_assoc.
    replace (String.length root + 1)%nat with (String.length (root ++ "/")).
    + apply str_prefix_split; [exact Hp | lia].
    + rewrite str_app_length. reflexivity.
  - rewrite E, orb_true_r in H.
    destruct (String.eqb (filepath_Rel root name) "."); congruence.
Qed.

Lemma eventKey_inj b1 r1 b2 r2 : eventKey b1 r1 = eventKey b2 r2 -> b1 = b2 /\ r1 = r2.
Proof.
  unfold eventKey. destruct b1, b2; cbn; intros H; try discriminate;
    repeat (injection H as H); auto.
Qed.

(** Every event the watcher goroutine enqueues carries a non-empty
    relative path, and its name is that path below the root of the side
    it is attributed to; the only state it changes is the debounce entry
    of its own side and path, set to the current time. *)
Theorem categorizeEvent_enqueued (now : Z) (ev : Event) (s s' : SyncEngine) (qe : QueuedEvent) :
  categorizeEvent now ev s = Ret (Some qe) s' ->
  qe.(raw) = ev /\ qe.(qe_relPath) <> "" /\
  ev.(Name) = (if qe.(qe_isLocal) then s.(localRoot) else s.(remoteRoot)) ++ "/" ++ qe.(qe_relPath) /\
  s' = setPending (<[eventKey qe.(qe_isLocal) qe.(qe_relPath) := now]> s.(pendingEvents)) s.
Proof.
  unfold categorizeEvent, bind, get, ret.
  destruct (String.eqb (Name ev) ""); [discriminate |].
  destruct (whichSideAndRel (localRoot s) (remoteRoot s) (Name ev)) as [isLocal rel] eqn:W.
  destruct (String.eqb_spec rel ""); [discriminate |].
  unfold shouldEnqueue. cbn.
  destruct (String.eqb (Name ev) ""); [discriminate |].
  destruct (stopped s); [discriminate |].
  assert (Hname : Name ev = (if isLocal then localRoot s else remoteRoot s) ++ "/" ++ rel).
  { unfold whichSideAndRel in W.
    destruct (resolve (localRoot s) (Name ev)) as [[|] r1] eqn:R1.
    - injection W as <- <-. apply resolve_below; assumption.
    - destruct (resolve (remoteRoot s) (Name ev)) as [[|] r2] eqn:R2;
        injection W as <- <-; [apply resolve_below; assumption | congruence]. }
  destruct (pendingEvents s !! eventKey isLocal rel) as [last|].
  - destruct (now - last <? debounceInterval s)%Z; [discriminate |].
    intros H. injection H as <- <-. cbn. auto.
  - intros H. injection H as <- <-. cbn. auto.
Qed.

Definition ex_watch_engine : SyncEngine :=
  sampleEngine {[ "docs/a.txt" := FileF "h1" 5%Z ]} ∅ ∅ ∅.

Lemma categorizeEvent_enqueued_witness :
  let ev := mkEvent "/srv/local_data/docs/a.txt" Write in
  exists qe s', categorizeEvent 7%Z ev ex_watch_engine = Ret (Some qe) s' /\
  (qe.(raw) = ev /\ qe.(qe_relPath) <> "" /\
   ev.(Name) = (if qe.(qe_isLocal) then ex_watch_engine.(localRoot) else ex_watch_engine.(remoteRoot))
               ++ "/" ++ qe.(qe_relPath) /\
   s' = setPending (<[eventKey qe.(qe_isLocal) qe.(qe_relPath) := 7%Z]> ex_watch_engine.(pendingEvents))
          ex_watch_engine).
Proof.
  intros ev. do 2 eexists. split; [vm_compute; reflexivity |].
  apply (categorizeEvent_enqueued 7%Z ev ex_watch_engine). vm_compute. reflexivity.
Defined.

(** Debouncing is per side and path: whatever [shouldEnqueue] decides for
    one event, the pending entry of every other side/path pair is left as
    it was, so a local and a remote event on the same path never suppress
    each other. *)
Theorem shouldEnqueue_other_keys (now : Z) (qe : QueuedEvent) (s s' : SyncEngine) (b : bool)
    (isLocal : bool) (rel : string) :
  shouldEnqueue now qe s = Ret b s' ->
  (isLocal, rel) <> (qe.(qe_isLocal), qe.(qe_relPath)) ->
  s'.(pendingEvents) !! eventKey isLocal rel = s.(pendingEvents) !! eventKey isLocal rel.
Proof.
  intros H Hne.
  assert (Hk : eventKey (qe_isLocal qe) (qe_relPath qe) <> eventKey isLocal rel).
  { intros E. apply eventKey_inj in E as [E1 E2]. apply Hne. rewrite E1, E2. reflexivity. }
  unfold shouldEnqueue in H.
  destruct (String.eqb (Name (raw qe)) ""); [injection H as _ <-; reflexivity |].
  destruct (stopped s); [injection H as _ <-; reflexivity |].
  destruct (pendingEvents s !! eventKey (qe_isLocal qe) (qe_relPath qe)) as [last|].
  - destruct (now - last <? debounceInterval s)%Z; injection H as _ <-; [reflexivity |].
    cbn. apply lookup_insert_ne. exact Hk.
  - injection H as _ <-. cbn. apply lookup_insert_ne. exact Hk.
Qed.

Lemma shouldEnqueue_other_keys_witness :
  let qe := mkQE (mkEvent "/srv/local_data/a.txt" Write) true "a.txt" in
  exists b s', shouldEnqueue 7%Z qe ex_watch_engine = Ret b s' /\
  s'.(pendingEvents) !! eventKey false "a.txt" = ex_watch_engine.(pendingEvents) !! eventKey false "a.txt".
Proof.
  intros qe. do 2 eexists. split; [vm_compute; reflexivity |].
  apply (shouldEnqueue_other_keys 7%Z qe ex_watch_engine _ true); [vm_compute; reflexivity | discriminate].
Defined.

Lemma str_eqb_below_empty r nm : String.eqb (r ++ "/" ++ nm) "" = false.
Proof. destruct r; reflexivity. Qed.

Lemma filepath_Rel_outside root target :
  String.eqb root target = false -> String.prefix (root ++ "/") target = false ->
  String.prefix ".." (filepath_Rel root target) = true.
Proof.
  intros E1 E2. unfold filepath_Rel. rewrite E1, E2.
  change ("../" ++ target) with (".." ++ "/" ++ target). apply str_prefix_refl_app.
Qed.

(** A file or directory directly below the local root whose name starts
    with ".." but is not ".." itself (such as "..notes") is enqueued by
    the watcher goroutine as a local event for that name, since
    [whichSideAndRel] only rejects ".." and paths starting with "../";
    the worker's [handleEvent] then drops it without any effect, since
    [determineEventSource] rejects every relative path starting with "..". *)
Theorem dotdot_name_enqueued_but_ignored (now : Z) (ev : Event) (s : SyncEngine) (nm : string) :
  ev.(Name) = s.(localRoot) ++ "/" ++ nm ->
  String.prefix ".." nm = true -> nm <> ".." -> String.prefix "../" nm = false ->
  String.eqb s.(remoteRoot) ev.(Name) = false ->
  String.prefix (s.(remoteRoot) ++ "/") ev.(Name) = false ->
  s.(stopped) = false -> s.(pendingEvents) !! eventKey true nm = None ->
  categorizeEvent now ev s
    = Ret (Some (mkQE ev true nm)) (setPending (<[eventKey true nm := now]> s.(pendingEvents)) s) /\
  handleEvent ev s = Ret None s.
Proof.
  intros Hn Hdd Hne Hsl Hr1 Hr2 Hst Hpe.
  assert (Hdot : String.eqb nm "." = false).
  { destruct (String.eqb_spec nm "."); [subst; discriminate | reflexivity]. }
  assert (Hempty : String.eqb nm "" = false).
  { destruct (String.eqb_spec nm ""); [subst; discriminate | reflexivity]. }
  assert (Hdd2 : String.eqb nm ".." = false).
  { destruct (String.eqb_spec nm ".."); [congruence | reflexivity]. }
  split.
  - unfold categorizeEvent, bind, get, ret.
    rewrite Hn, str_eqb_below_empty.
    unfold whichSideAndRel, resolve. rewrite filepath_Rel_under, Hdot, Hdd2, Hsl.
    cbn -[eventKey]. rewrite Hempty.
    unfold shouldEnqueue. cbn -[eventKey]. rewrite Hn, str_eqb_below_empty, Hst, Hpe.
    reflexivity.
  - unfold handleEvent, bind, get.
    destruct (isPaused s); [reflexivity |].
    unfold determineEventSource.
    replace (filepath_Rel (localRoot s) (Name ev)) with nm
      by (rewrite Hn; symmetry; apply filepath_Rel_under).
    rewrite Hdd.
    rewrite (filepath_Rel_outside (remoteRoot s) (Name ev) Hr1 Hr2). reflexivity.
Qed.

Lemma dotdot_name_enqueued_but_ignored_witness :
  let ev := mkEvent "/srv/local_data/..notes" Write in
  categorizeEvent 7%Z ev ex_watch_engine
    = Ret (Some (mkQE ev true "..notes"))
          (setPending (<[eventKey true "..notes" := 7%Z]> ex_watch_engine.(pendingEvents)) ex_watch_engine) /\
  handleEvent ev ex_watch_engine = Ret None ex_watch_engine.
Proof.
  intros ev. apply (dotdot_name_enqueued_but_ignored 7%Z ev ex_watch_engine "..notes");
    try reflexivity; discriminate.
Defined.

(* ------------------------------------------------------------------ *)
(** ** Directory events *)


Definition ex_dir_engine : SyncEngine :=
  sampleEngine {[ "photos" := DirF ]} ∅ ∅ ∅.


(** A create event for a directory [P] whose destination holds a regular
    file at [P] fails: the directory is still added to the watcher, but
    nothing else changes (no map entry, file or notification). *)
Theorem directory_over_file_fails (ev : Event) (s : SyncEngine) (isLocal : bool) (P h : string) (t : Z) :
  s.(isPaused) = false ->
  determineEventSource s.(localRoot) s.(remoteRoot) ev.(Name) = inl (isLocal, P) ->
  has_op ev.(Op) Create = true -> P <> "." ->
  sideDisk isLocal s !! P = Some DirF ->
  sideDisk (negb isLocal) s !! P = Some (FileF h t) ->
  exists e, handleEvent ev s = Ret (Some e) (addWatched ev.(Name) s).
Proof.
  intros Hp Hsrc Hc Hdot Hdir Hf.
  rewrite (handleEvent_dispatch ev s isLocal P Hp Hsrc), Hc.
  unfold handleCreateEvent, bind at 1, get, os_Stat.
  destruct (String.eqb_spec P "."); [congruence |]. rewrite Hdir.
  unfold syncDirectory, bind, get, modify, FS.EnsureDir, ret.
  assert (Hd : sideDisk (negb isLocal) (addWatched (Name ev) s) !! P = Some (FileF h t))
    by (destruct isLocal; exact Hf).
  rewrite Hd. eexists. f_equal. destruct isLocal, s; reflexivity.
Qed.

Definition ex_dir_file_engine : SyncEngine :=
  sampleEngine {[ "photos" := DirF ]} {[ "photos" := FileF "h1" 5%Z ]} ∅ ∅.

Lemma directory_over_file_fails_witness :
  exists e, handleEvent (mkEvent "/srv/local_data/photos" Create) ex_dir_file_engine
            = Ret (Some e) (addWatched "/srv/local_data/photos" ex_dir_file_engine).
Proof.
  apply (directory_over_file_fails (mkEvent "/srv/local_data/photos" Create) ex_dir_file_engine
           true "photos" "h1" 5%Z); try reflexivity; discriminate.
Defined.

(** A write or chmod event (without the create, remove or rename bit)
    for a path that is a directory on the source side fails with an
    error and leaves the whole state as it was: hashing a directory
    fails with an error that [os.IsNotExist] does not recognise. *)
Theorem write_on_directory_fails (ev : Event) (s : SyncEngine) (isLocal : bool) (P : string) :
  s.(isPaused) = false -> s.(mu_held) = false ->
  determineEventSource s.(localRoot) s.(remoteRoot) ev.(Name) = inl (isLocal, P) ->
  has_op ev.(Op) Create = false ->
  has_op ev.(Op) Remove || has_op ev.(Op) Rename = false ->
  has_op ev.(Op) Write || has_op ev.(Op) Chmod = true ->
  sideDisk isLocal s !! P = Some DirF ->
  exists e, handleEvent ev s = Ret (Some e) s.
Proof.
  intros Hp Hm Hsrc Hc Hrr Hwc Hdir.
  rewrite (handleEvent_dispatch ev s isLocal P Hp Hsrc), Hc, Hrr, Hwc.
  unfold handleWriteOrChmodEvent.
  eexists.
  rewrite (with_mu_ret _ s (Some (WrapError ("error getting metadata for " ++ Name ev)
             (WrapError "error computing hash"
                (WrapError "error reading file for hashing" (PathError "read" P EISDIR)))))
             (setMu true s) Hm).
  - rewrite setMu_setMu, <- Hm, setMu_same. reflexivity.
  - unfold bind, get, FS.GetMetadata. rewrite sideDisk_setMu, Hdir. reflexivity.
Qed.

Lemma write_on_directory_fails_witness :
  exists e, handleEvent (mkEvent "/srv/local_data/photos" Chmod) ex_dir_engine
            = Ret (Some e) ex_dir_engine.
Proof.
  apply (write_on_directory_fails (mkEvent "/srv/local_data/photos" Chmod) ex_dir_engine
           true "photos"); reflexivity.
Defined.

(* ------------------------------------------------------------------ *)
(** ** What a synchronization step never touches *)

(** The parts of the engine a synchronization step leaves alone: the
    roots, the pause flag, the callback, the clock, and the worker and
    debounce state. *)
Definition Frame (s s' : SyncEngine) : Prop :=
  s'.(localRoot) = s.(localRoot) /\ s'.(remoteRoot) = s.(remoteRoot) /\
  s'.(isPaused) = s.(isPaused) /\ s'.(hasCallback) = s.(hasCallback) /\
  s'.(clock) = s.(clock) /\ s'.(jobs) = s.(jobs) /\
  s'.(perFileLocks) = s.(perFileLocks) /\ s'.(pendingEvents) = s.(pendingEvents) /\
  s'.(debounceInterval) = s.(debounceInterval) /\ s'.(stopped) = s.(stopped).

Lemma Frame_refl s : Frame s s.
Proof. unfold Frame; repeat split. Qed.

Lemma Frame_trans s1 s2 s3 : Frame s1 s2 -> Frame s2 s3 -> Frame s1 s3.
Proof. unfold Frame. intuition congruence. Qed.

(** [m] started with [s.mu] in state [b] returns (never waits), leaves
    [s.mu] in state [b] and keeps the frame. *)
Definition Runs {A} (b : bool) (m : M A) : Prop :=
  forall s, s.(mu_held) = b ->
  exists a s', m s = Ret a s' /\ Frame s s' /\ s'.(mu_held) = b.

Lemma Runs_ret {A} b (a : A) : Runs b (ret a).
Proof. intros s Hs. exists a, s. split; [reflexivity | split; [apply Frame_refl | exact Hs]]. Qed.

Lemma Runs_bind {A B} b (m : M A) (k : A -> M B) :
  Runs b m -> (forall a, Runs b (k a)) -> Runs b (bind m k).
Proof.
  intros Hm Hk s Hs. destruct (Hm s Hs) as (a & s1 & E1 & F1 & M1).
  destruct (Hk a s1 M1) as (c & s2 & E2 & F2 & M2).
  exists c, s2. unfold bind. rewrite E1. split; [exact E2 | split; [eapply Frame_trans; eassumption | exact M2]].
Qed.

Lemma Runs_get_bind {B} b (k : SyncEngine -> M B) :
  (forall s0, Runs b (k s0)) -> Runs b (bind get k).
Proof. intros Hk s Hs. unfold bind, get. exact (Hk s s Hs). Qed.

Lemma Runs_modify b f :
  (forall s, Frame s (f s) /\ (f s).(mu_held) = s.(mu_held)) -> Runs b (modify f).
Proof.
  intros Hf s Hs. destruct (Hf s) as [F M]. exists tt, (f s).
  split; [reflexivity | split; [exact F | congruence]].
Qed.

Lemma Runs_with_mu {A} (body : M A) : Runs true body -> Runs false (with_mu body).
Proof.
  intros Hb s Hs. destruct (Hb (setMu true s) eq_refl) as (a & s1 & E & F & M).
  exists a, (setMu false s1). split.
  - apply with_mu_ret; assumption.
  - split; [| reflexivity]. unfold Frame in *. cbn in *. intuition congruence.
Qed.

Ltac frame_setter :=
  intros; match goal with |- _ /\ _ => idtac | _ => fail end;
  repeat match goal with b : bool |- _ => destruct b end;
  unfold Frame; cbn; repeat split.

Lemma Runs_emit b t p d msg : Runs b (emit t p d msg).
Proof. apply Runs_modify. intros s. unfold emit. destruct (hasCallback s); frame_setter. Qed.

Lemma Runs_mapInsert b isLocal rel meta : Runs b (mapInsert isLocal rel meta).
Proof. apply Runs_modify. frame_setter. Qed.

Lemma Runs_mapDelete b isLocal rel : Runs b (mapDelete isLocal rel).
Proof. apply Runs_modify. frame_setter. Qed.

Lemma Runs_copyFile b isLocal rel mt : Runs b (copyFile isLocal rel mt).
Proof.
  intros s Hs. unfold copyFile.
  destruct (FS.GetReader _ rel) as [[h|]|e];
    [destruct (FS.GetWriter _ rel _) as [d1|e] | destruct (FS.GetWriter _ rel _) as [d1|e] |];
    eexists; eexists; (split; [reflexivity |]);
    destruct isLocal; unfold Frame; cbn; repeat split; exact Hs.
Qed.

Lemma Runs_syncFileToDestination b isLocal rel meta : Runs b (syncFileToDestination isLocal rel meta).
Proof.
  unfold syncFileToDestination. apply Runs_bind; [apply Runs_copyFile |].
  intros [e|]; [apply Runs_ret |].
  repeat (apply Runs_bind; [apply Runs_mapInsert || apply Runs_emit | intros _]).
  apply Runs_ret.
Qed.

Lemma Runs_compareAndSync b isLocal rel meta : Runs b (compareAndSync isLocal rel meta).
Proof.
  unfold compareAndSync. apply Runs_get_bind. intros s0.
  destruct (sideMap (negb isLocal) s0 !! rel) as [dm|]; cbn.
  - destruct (String.eqb (Hash meta) (Hash dm)); cbn.
    + repeat (apply Runs_bind; [apply Runs_mapInsert | intros _]). apply Runs_ret.
    + destruct (ModTime dm <? ModTime meta)%Z; [apply Runs_syncFileToDestination |].
      unfold handleFileConflict. apply Runs_bind; [apply Runs_emit | intros _; apply Runs_ret].
  - apply Runs_syncFileToDestination.
Qed.

(** Every error of [GetMetadata] is wrapped, so [os.IsNotExist] never
    holds of it. *)
Lemma GetMetadata_error_not_IsNotExist d rel e :
  FS.GetMetadata d rel = inr e -> os_IsNotExist e = false.
Proof.
  unfold FS.GetMetadata. destruct (d !! rel) as [[|]|]; intros H; inversion H; reflexivity.
Qed.

Lemma Runs_metadata_then_compare b ev isLocal rel :
  Runs b (let* s := get in
          match FS.GetMetadata (sideDisk isLocal s) rel with
          | inr e =>
              if os_IsNotExist e then
                let* _ := handleMissingFile rel isLocal in ret None
              else ret (Some (WrapError ("error getting metadata for " ++ ev.(Name)) e))
          | inl srcMeta => compareAndSync isLocal rel srcMeta
          end).
Proof.
  apply Runs_get_bind. intros s0.
  destruct (FS.GetMetadata (sideDisk isLocal s0) rel) as [m|e] eqn:E.
  - apply Runs_compareAndSync.
  - rewrite (GetMetadata_error_not_IsNotExist _ _ _ E). apply Runs_ret.
Qed.

Lemma Runs_handleEvent ev : Runs false (handleEvent ev).
Proof.
  unfold handleEvent. apply Runs_get_bind. intros s0.
  destruct (isPaused s0); [apply Runs_ret |].
  destruct (determineEventSource _ _ _) as [[isLocal rel]|e]; [| apply Runs_ret].
  destruct (has_op (Op ev) Create); [| destruct (has_op (Op ev) Remove || has_op (Op ev) Rename);
                                      [| destruct (has_op (Op ev) Write || has_op (Op ev) Chmod)]].
  - unfold handleCreateEvent. apply Runs_get_bind. intros s1.
    destruct (os_Stat isLocal rel s1) as [[h t|]|]; [| | apply Runs_ret].
    + apply Runs_metadata_then_compare.
    + apply Runs_bind; [apply Runs_modify; frame_setter | intros _].
      unfold syncDirectory. apply Runs_get_bind. intros s2.
      destruct (FS.EnsureDir _ rel) as [d' [e|]].
      * apply Runs_bind; [apply Runs_modify; frame_setter | intros _]. apply Runs_ret.
      * apply Runs_bind; [apply Runs_modify; frame_setter | intros _].
        repeat (apply Runs_bind; [apply Runs_mapInsert || apply Runs_emit | intros _]).
        apply Runs_ret.
  - unfold handleDeleteOrRenameEvent. apply Runs_with_mu.
    destruct (has_op (Op ev) Rename); cbn -[bind];
      repeat (apply Runs_bind; [apply Runs_mapDelete || apply Runs_emit
                                || (apply Runs_modify; frame_setter) | intros _]);
      apply Runs_ret.
  - unfold handleWriteOrChmodEvent. apply Runs_with_mu. apply Runs_metadata_then_compare.
  - apply Runs_ret.
Qed.

(** Started with [s.mu] free, [handleEvent] always returns: it never
    waits on [s.mu] (the [handleMissingFile] call made under the lock is
    unreachable, since [os.IsNotExist] never holds of a provider error).
    It leaves [s.mu] free, and never changes the roots, the pause flag,
    the callback, the job queue, the per-file locks or the debounce table. *)
Theorem handleEvent_returns_in_frame (ev : Event) (s : SyncEngine) :
  s.(mu_held) = false ->
  exists r s', handleEvent ev s = Ret r s' /\ Frame s s' /\ s'.(mu_held) = false.
Proof. apply Runs_handleEvent. Qed.

Lemma handleEvent_returns_in_frame_witness :
  exists r s', handleEvent (mkEvent "/srv/local_data/a.txt" Write) ex_conflict_engine = Ret r s' /\
    Frame ex_conflict_engine s' /\ s'.(mu_held) = false.
Proof. apply handleEvent_returns_in_frame. reflexivity. Defined.

(** [processEventWithLock] for a path whose lock is free (and [s.mu]
    free) always completes: whatever [handleEvent] returns, the path's
    lock ends released, the debounce entry of the event's side and path
    is set to the current time, and the job queue and [s.mu] are as they
    were. *)
Theorem processEventWithLock_releases (qe : QueuedEvent) (now : Z) (s : SyncEngine) :
  qe.(raw).(Name) <> "" ->
  s.(perFileLocks) !! qe.(qe_relPath) <> Some true ->
  s.(mu_held) = false ->
  exists s', processEventWithLock qe now s = Ret tt s' /\
    s'.(perFileLocks) = <[qe.(qe_relPath) := false]> s.(perFileLocks) /\
    s'.(pendingEvents) = <[eventKey qe.(qe_isLocal) qe.(qe_relPath) := now]> s.(pendingEvents) /\
    s'.(jobs) = s.(jobs) /\ s'.(mu_held) = false.
Proof.
  intros Hn Hl Hm.
  set (s0 := setLocks (<[qe_relPath qe := true]> (perFileLocks s)) s).
  destruct (Runs_handleEvent (raw qe) s0 Hm) as (r & s1 & E & F & M).
  assert (Hlock : lockPath (qe_relPath qe) s = Ret tt s0).
  { unfold lockPath. destruct (perFileLocks s !! qe_relPath qe) as [[|]|]; [congruence | reflexivity | reflexivity]. }
  unfold processEventWithLock.
  destruct (String.eqb_spec (Name (raw qe)) ""); [congruence |].
  unfold bind. rewrite Hlock, E.
  unfold unlockPath, markEventProcessed, modify.
  eexists. split; [reflexivity |].
  unfold Frame in F. destruct F as (_ & _ & _ & _ & _ & Fj & Fl & Fp & _).
  cbn. rewrite Fl, Fp, Fj. cbn.
  split; [apply insert_insert_eq | repeat split; exact M].
Qed.

Lemma processEventWithLock_releases_witness :
  let qe := mkQE (mkEvent "/srv/local_data/a.txt" Write) true "a.txt" in
  exists s', processEventWithLock qe 9%Z ex_conflict_engine = Ret tt s' /\
    s'.(perFileLocks) = <[qe.(qe_relPath) := false]> ex_conflict_engine.(perFileLocks) /\
    s'.(pendingEvents) = <[eventKey qe.(qe_isLocal) qe.(qe_relPath) := 9%Z]> ex_conflict_engine.(pendingEvents) /\
    s'.(jobs) = ex_conflict_engine.(jobs) /\ s'.(mu_held) = false.
Proof.
  intros qe. apply processEventWithLock_releases; [discriminate | vm_compute; discriminate | reflexivity].
Defined.

(* ------------------------------------------------------------------ *)
(** ** Echo events: what the other side's watcher reports after a step *)

(** The agreeing branch through [handleEvent] (create or write/chmod). *)
Lemma handleEvent_agree_step (ev : Event) (s : SyncEngine) (isLocal : bool)
    (P h : string) (t : Z) (dstMeta : FileMetadata) :
  s.(isPaused) = false -> s.(mu_held) = false ->
  determineEventSource s.(localRoot) s.(remoteRoot) ev.(Name) = inl (isLocal, P) ->
  P <> "." ->
  fileWriteKind ev.(Op) = true ->
  sideDisk isLocal s !! P = Some (FileF h t) ->
  sideMap (negb isLocal) s !! P = Some dstMeta ->
  dstMeta.(Hash) = h ->
  handleEvent ev s
  = Ret None (setSideMap isLocal (<[P := mkMeta P h t]> (sideMap isLocal s)) s).
Proof.
  intros Hp Hm Hsrc Hdot Hk Hdisk Hdst Hh.
  rewrite (handleEvent_dispatch ev s isLocal P Hp Hsrc).
  unfold fileWriteKind in Hk.
  destruct (has_op (Op ev) Create) eqn:Ecr.
  - unfold handleCreateEvent, bind, get, os_Stat.
    destruct (String.eqb_spec P "."); [congruence |]. rewrite Hdisk.
    unfold syncFile, bind, get, FS.GetMetadata. rewrite Hdisk.
    apply (compareAndSync_agree isLocal P (mkMeta P h t) dstMeta s Hdst).
    cbn. congruence.
  - cbn in Hk.
    destruct (has_op (Op ev) Remove || has_op (Op ev) Rename); [discriminate |].
    cbn in Hk. rewrite Hk.
    unfold handleWriteOrChmodEvent.
    rewrite (with_mu_ret _ s None
               (setSideMap isLocal (<[P := mkMeta P h t]> (sideMap isLocal (setMu true s)))
                  (setMu true s)) Hm).
    + rewrite setMu_setSideMap, setMu_setMu, <- Hm, setMu_same, sideMap_setMu.
      reflexivity.
    + unfold bind, get, FS.GetMetadata. rewrite sideDisk_setMu, Hdisk.
      apply (compareAndSync_agree _ _ _ dstMeta);
        [rewrite sideMap_setMu; exact Hdst | cbn; congruence].
Qed.

(** After a file [P] was synced from one side to the other with a
    non-zero modification time, the create/write/chmod event that the
    destination's watcher reports for [P] changes nothing at all: no copy
    back, no notification, no map or file change. *)
Theorem sync_echo_noop (s s' : SyncEngine) (isLocal : bool) (P h : string) (t : Z) (ev' : Event) :
  SyncedTo isLocal P (mkMeta P h t) h s s' -> t <> 0%Z -> P <> "." ->
  s'.(isPaused) = false -> s'.(mu_held) = false ->
  determineEventSource s'.(localRoot) s'.(remoteRoot) ev'.(Name) = inl (negb isLocal, P) ->
  fileWriteKind ev'.(Op) = true ->
  handleEvent ev' s' = Ret None s'.
Proof.
  intros (Hl & Hr & _ & Hd & _) Ht Hdot Hp Hm Hsrc Hk.
  assert (Hmap : forall b, sideMap b s' !! P = Some (mkMeta P h t)).
  { intros []; cbn; [rewrite Hl | rewrite Hr]; apply lookup_insert_eq. }
  assert (Hdisk : sideDisk (negb isLocal) s' !! P = Some (FileF h t)).
  { rewrite Hd, lookup_insert_eq. cbn.
    destruct (Z.eqb_spec t 0); [congruence | reflexivity]. }
  rewrite (handleEvent_agree_step ev' s' (negb isLocal) P h t (mkMeta P h t)); try assumption;
    [| apply Hmap | reflexivity].
  rewrite insert_id by apply Hmap. rewrite setSideMap_sideMap. reflexivity.
Qed.

(** The engine after the local file "a.txt" of [ex_fresh_engine] was
    synced to the remote side. *)
Definition ex_synced_engine : SyncEngine :=
  match handleEvent (mkEvent "/srv/local_data/a.txt" Create) ex_fresh_engine with
  | Ret _ s' => s'
  | Blocked s' => s'
  end.

Lemma sync_echo_noop_witness :
  SyncedTo true "a.txt" (mkMeta "a.txt" "h1" 5%Z) "h1" ex_fresh_engine ex_synced_engine /\
  handleEvent (mkEvent "/srv/remote_data/a.txt" Write) ex_synced_engine = Ret None ex_synced_engine.
Proof.
  assert (Hs : SyncedTo true "a.txt" (mkMeta "a.txt" "h1" 5%Z) "h1" ex_fresh_engine ex_synced_engine).
  { unfold SyncedTo. vm_compute. repeat split. }
  split; [exact Hs |].
  apply (sync_echo_noop ex_fresh_engine ex_synced_engine true "a.txt" "h1" 5%Z); try exact Hs;
    try discriminate; vm_compute; reflexivity.
Defined.

Lemma DeleteFile_absent d rel :
  (forall k, FS.under rel k = true -> d !! k = None) -> (FS.DeleteFile d rel).1 = d.
Proof.
  intros H. unfold FS.DeleteFile. cbn. apply map_filter_id.
  intros k x Hk. cbn. destruct (FS.under rel k) eqn:E; [| reflexivity].
  rewrite (H k E) in Hk. discriminate.
Qed.

(** A remove or rename event (without the create bit) for a path [P]
    that neither map has and of which nothing is left on the destination
    side (such as the event the destination's watcher reports after a
    delete was propagated) changes nothing but emits one more "delete"
    or "move" notification. *)
Theorem delete_absent_only_notifies (ev : Event) (s : SyncEngine) (isLocal : bool) (P : string) :
  s.(isPaused) = false -> s.(mu_held) = false ->
  determineEventSource s.(localRoot) s.(remoteRoot) ev.(Name) = inl (isLocal, P) ->
  has_op ev.(Op) Create = false ->
  has_op ev.(Op) Remove || has_op ev.(Op) Rename = true ->
  s.(localMap) !! P = None -> s.(remoteMap) !! P = None ->
  (forall k, FS.under P k = true -> sideDisk (negb isLocal) s !! k = None) ->
  handleEvent ev s
  = Ret None (if s.(hasCallback) then addNote (deleteNote ev.(Op) P isLocal) s else s).
Proof.
  intros Hp Hm Hsrc Hc Hrr Hl Hr Hd.
  rewrite (handleEvent_dispatch ev s isLocal P Hp Hsrc), Hc, Hrr.
  unfold handleDeleteOrRenameEvent, with_mu, lock_mu, bind, unlock_mu, modify,
    mapDelete, emit, ret.
  rewrite Hm. unfold deleteNote.
  pose proof (DeleteFile_absent _ _ Hd) as HD.
  destruct (has_op (Op ev) Rename), isLocal, (hasCallback s) eqn:Hcb;
    cbn -[delete FS.DeleteFile] in *;
    rewrite ?(delete_id _ _ Hl), ?(delete_id _ _ Hr), ?HD; rewrite ?Hcb;
    destruct s; cbn in *; subst; reflexivity.
Qed.

Definition ex_after_delete_engine : SyncEngine :=
  sampleEngine {[ "keep.txt" := FileF "h1" 5%Z ]} {[ "keep.txt" := FileF "h1" 5%Z ]}
    {[ "keep.txt" := mkMeta "keep.txt" "h1" 5%Z ]} {[ "keep.txt" := mkMeta "keep.txt" "h1" 5%Z ]}.

Lemma delete_absent_only_notifies_witness :
  handleEvent (mkEvent "/srv/remote_data/d" Remove) ex_after_delete_engine
  = Ret None (addNote (deleteNote Remove "d" false) ex_after_delete_engine).
Proof.
  apply (delete_absent_only_notifies (mkEvent "/srv/remote_data/d" Remove) ex_after_delete_engine
           false "d"); try reflexivity.
  intros k Hk. unfold ex_after_delete_engine, sampleEngine, sideDisk. cbn [negb localDisk].
  apply lookup_singleton_ne. intros <-. discriminate.
Defined.

(* ------------------------------------------------------------------ *)
(** ** Further properties of reconciliation *)

(** The copies of the second loop of a successful [reconcile]. *)
Lemma reconcile_remote_copies ord1 ord2 (s s' : SyncEngine) :
  OrderOK ord1 -> OrderOK ord2 -> s.(mu_held) = false ->
  reconcile ord1 ord2 s = Ret None s' ->
  forall k b, remoteKeyCopy (localKeyOutcome (LR s k)) = Some b -> (b, k) ∈ s'.(copies).
Proof.
  intros Ho1 Ho2 Hm Hr.
  unfold reconcile, with_mu, bind, lock_mu, get in Hr. rewrite Hm in Hr.
  destruct (rangeLoop reconcileLocalKey (ord1 (localMap (setMu true s))) (setMu true s))
    as [[e1|] s1 | s1] eqn:H1; [discriminate | | discriminate].
  destruct (rangeLoop reconcileRemoteKey (ord2 (remoteMap s1)) s1)
    as [[e2|] s2 | s2] eqn:H2; [discriminate | | discriminate].
  cbn in Hr. inversion Hr; subst s'. clear Hr.
  destruct (Ho1 (localMap (setMu true s))) as [Hnd1 Hin1].
  destruct (Ho2 (remoteMap s1)) as [Hnd2 Hin2].
  destruct (rangeLoop_spec _ _ _ reconcileLocalKey_body _ Hnd1 _ _ H1)
    as (Hl1 & _ & _ & _).
  destruct (rangeLoop_spec _ _ _ reconcileRemoteKey_body _ Hnd2 _ _ H2)
    as (_ & Hc2 & _ & _).
  assert (Hstep1 : forall k, LR s1 k = localKeyOutcome (LR s k)).
  { intros k. rewrite Hl1, LR_setMu.
    case_bool_decide as Hk; [reflexivity |].
    unfold LR. destruct (localMap s !! k) eqn:E; [| reflexivity].
    exfalso. apply Hk, Hin1. cbn. rewrite E. eauto. }
  intros k b Hb. rewrite <- Hstep1 in Hb. cbn.
  apply Hc2; [| exact Hb].
  apply Hin2. unfold LR in Hb. destruct (remoteMap s1 !! k); [eauto |].
  destruct (localMap s1 !! k); discriminate.
Qed.

Lemma reconcile_keys ord1 ord2 (s s' : SyncEngine) (k : string) :
  OrderOK ord1 -> OrderOK ord2 -> s.(mu_held) = false ->
  reconcile ord1 ord2 s = Ret None s' ->
  (is_Some (s'.(localMap) !! k) <-> is_Some (s.(localMap) !! k) \/ is_Some (s.(remoteMap) !! k)) /\
  (is_Some (s'.(remoteMap) !! k) <-> is_Some (s.(localMap) !! k) \/ is_Some (s.(remoteMap) !! k)).
Proof.
  intros Ho1 Ho2 Hm Hr.
  destruct (reconcile_pointwise _ _ _ _ Ho1 Ho2 Hm Hr) as (Hpt & _ & _).
  specialize (Hpt k). unfold LR in Hpt.
  destruct (localMap s !! k) as [lm|], (remoteMap s !! k) as [rm|]; cbn in Hpt;
    [destruct (negb (String.eqb (Hash lm) (Hash rm))); [destruct (ModTime rm <? ModTime lm)%Z |] | | |];
    injection Hpt as H1 H2; rewrite H1, H2;
    split; split; intros H; try (destruct H as [H|H]); try (destruct H; discriminate);
    eauto.
Qed.

(** After a successful reconciliation both maps have the same paths:
    those that either map had before. Reconciliation never drops a path
    and never invents one. *)
Theorem reconcile_key_union ord1 ord2 (s s' : SyncEngine) (k : string) :
  OrderOK ord1 -> OrderOK ord2 -> s.(mu_held) = false ->
  reconcile ord1 ord2 s = Ret None s' ->
  (is_Some (s'.(localMap) !! k) <-> is_Some (s.(localMap) !! k) \/ is_Some (s.(remoteMap) !! k)) /\
  (is_Some (s'.(remoteMap) !! k) <-> is_Some (s.(localMap) !! k) \/ is_Some (s.(remoteMap) !! k)).
Proof. apply reconcile_keys. Qed.

Lemma reconcile_key_union_witness :
  exists s', reconcile mapKeys mapKeys ex_reconcile_engine = Ret None s' /\
  (is_Some (s'.(localMap) !! "r.txt") <->
     is_Some (ex_reconcile_engine.(localMap) !! "r.txt") \/ is_Some (ex_reconcile_engine.(remoteMap) !! "r.txt")) /\
  (is_Some (s'.(remoteMap) !! "r.txt") <->
     is_Some (ex_reconcile_engine.(localMap) !! "r.txt") \/ is_Some (ex_reconcile_engine.(remoteMap) !! "r.txt")).
Proof.
  eexists. split; [vm_compute; reflexivity |].
  apply (reconcile_key_union mapKeys mapKeys ex_reconcile_engine _ "r.txt" mapKeys_OrderOK mapKeys_OrderOK);
    [reflexivity | vm_compute; reflexivity].
Defined.

(** In a successful reconciliation, a path only the local map has is
    copied to the remote side and both maps end with the local metadata;
    a path only the remote map has is copied to the local side and both
    maps end with the remote metadata. *)
Theorem reconcile_one_sided_copied ord1 ord2 (s s' : SyncEngine) (p : string) (m : FileMetadata) :
  OrderOK ord1 -> OrderOK ord2 -> s.(mu_held) = false ->
  reconcile ord1 ord2 s = Ret None s' ->
  (s.(localMap) !! p = Some m -> s.(remoteMap) !! p = None ->
   s'.(localMap) !! p = Some m /\ s'.(remoteMap) !! p = Some m /\ (true, p) ∈ s'.(copies)) /\
  (s.(localMap) !! p = None -> s.(remoteMap) !! p = Some m ->
   s'.(localMap) !! p = Some m /\ s'.(remoteMap) !! p = Some m /\ (false, p) ∈ s'.(copies)).
Proof.
  intros Ho1 Ho2 Hm Hr.
  destruct (reconcile_pointwise _ _ _ _ Ho1 Ho2 Hm Hr) as (Hpt & Hc & _).
  pose proof (reconcile_remote_copies _ _ _ _ Ho1 Ho2 Hm Hr p) as Hc2.
  specialize (Hpt p). specialize (Hc p).
  unfold LR in Hpt, Hc, Hc2.
  split; intros Hl Hrm; rewrite Hl, Hrm in Hpt, Hc, Hc2; cbn in Hpt, Hc, Hc2;
    inversion Hpt as [[H1 H2]]; repeat split; auto.
Qed.

Lemma reconcile_one_sided_copied_witness :
  exists s', reconcile mapKeys mapKeys ex_reconcile_engine = Ret None s' /\
    (s'.(localMap) !! "r.txt" = Some (mkMeta "r.txt" "hr" 4%Z) /\
     s'.(remoteMap) !! "r.txt" = Some (mkMeta "r.txt" "hr" 4%Z) /\ (false, "r.txt") ∈ s'.(copies)).
Proof.
  eexists. split; [vm_compute; reflexivity |].
  apply (proj2 (reconcile_one_sided_copied mapKeys mapKeys ex_reconcile_engine _ "r.txt"
                  (mkMeta "r.txt" "hr" 4%Z) mapKeys_OrderOK mapKeys_OrderOK eq_refl
                  (ltac:(vm_compute; reflexivity)))); vm_compute; reflexivity.
Defined.

(** In a successful reconciliation, a path whose two entries have equal
    hashes keeps both entries as they were, even when their modification
    times differ. *)
Theorem reconcile_equal_hash_kept ord1 ord2 (s s' : SyncEngine) (p : string) (lm rm : FileMetadata) :
  OrderOK ord1 -> OrderOK ord2 -> s.(mu_held) = false ->
  reconcile ord1 ord2 s = Ret None s' ->
  s.(localMap) !! p = Some lm -> s.(remoteMap) !! p = Some rm -> lm.(Hash) = rm.(Hash) ->
  s'.(localMap) !! p = Some lm /\ s'.(remoteMap) !! p = Some rm.
Proof.
  intros Ho1 Ho2 Hm Hr Hl Hrm Hh.
  destruct (reconcile_pointwise _ _ _ _ Ho1 Ho2 Hm Hr) as (Hpt & _ & _).
  specialize (Hpt p). unfold LR in Hpt. rewrite Hl, Hrm in Hpt. cbn in Hpt. rewrite Hh, String.eqb_refl in Hpt.
  cbn in Hpt. inversion Hpt. auto.
Qed.

Definition ex_same_content_engine : SyncEngine :=
  sampleEngine {[ "a.txt" := FileF "h1" 9%Z ]} {[ "a.txt" := FileF "h1" 5%Z ]}
    {[ "a.txt" := mkMeta "a.txt" "h1" 9%Z ]} {[ "a.txt" := mkMeta "a.txt" "h1" 5%Z ]}.

Lemma reconcile_equal_hash_kept_witness :
  exists s', reconcile mapKeys mapKeys ex_same_content_engine = Ret None s' /\
    s'.(localMap) !! "a.txt" = Some (mkMeta "a.txt" "h1" 9%Z) /\
    s'.(remoteMap) !! "a.txt" = Some (mkMeta "a.txt" "h1" 5%Z).
Proof.
  eexists. split; [vm_compute; reflexivity |].
  apply (reconcile_equal_hash_kept mapKeys mapKeys ex_same_content_engine _ "a.txt"
           (mkMeta "a.txt" "h1" 9%Z) (mkMeta "a.txt" "h1" 5%Z) mapKeys_OrderOK mapKeys_OrderOK);
    try reflexivity; vm_compute; reflexivity.
Defined.

(* ------------------------------------------------------------------ *)
(** ** Further properties of the listing *)

(** The listing has exactly one line for a path only the local map has
    (location "local", local hash and time), exactly one for a path only
    the remote map has (location "remote", remote hash and time), and
    none for a path neither map has. *)
Theorem listing_one_sided (formatTime : Z -> string) ord1 ord2 (s : SyncEngine) (p : string) :
  OrderOK ord1 -> OrderOK ord2 ->
  (forall lm, s.(localMap) !! p = Some lm -> s.(remoteMap) !! p = None ->
     filter (fun fi => fi_RelativePath fi = p) (GetFileList formatTime ord1 ord2 s) =
       [mkInfo p lm.(Hash) (formatTime lm.(ModTime)) "local"]) /\
  (forall rm, s.(localMap) !! p = None -> s.(remoteMap) !! p = Some rm ->
     filter (fun fi => fi_RelativePath fi = p) (GetFileList formatTime ord1 ord2 s) =
       [mkInfo p rm.(Hash) (formatTime rm.(ModTime)) "remote"]) /\
  (s.(localMap) !! p = None -> s.(remoteMap) !! p = None ->
     filter (fun fi => fi_RelativePath fi = p) (GetFileList formatTime ord1 ord2 s) = []).
Proof.
  intros Ho1 Ho2.
  pose proof (GetFileList_fileSet formatTime ord1 ord2 s Ho1 Ho2) as Hfs. cbn zeta in Hfs.
  unfold GetFileList.
  set (fs := foldl (remoteEntry formatTime (remoteMap s))
               (foldl (localEntry formatTime (localMap s)) ∅ (ord1 (localMap s)))
               (ord2 (remoteMap s))) in *.
  assert (Hkeys : forall k v, fs !! k = Some v -> fi_RelativePath v = k).
  { intros k v Hv. rewrite Hfs in Hv. exact (fileSet_keys _ _ _ _ _ Hv). }
  assert (Hp : fs !! p = remoteInfo formatTime (remoteMap s) p (localInfo formatTime (localMap s) p None))
    by apply Hfs.
  unfold remoteInfo, localInfo in Hp.
  split; [| split].
  - intros lm Hl Hr. rewrite Hl, Hr in Hp. exact (filter_values _ Hkeys p _ Hp).
  - intros rm Hl Hr. rewrite Hl, Hr in Hp. exact (filter_values _ Hkeys p _ Hp).
  - intros Hl Hr. rewrite Hl, Hr in Hp.
    apply filter_all_False. intros w Hw Hwp.
    apply list_elem_of_fmap in Hw as [[k w'] [-> Hkw]].
    apply elem_of_map_to_list in Hkw. cbn in Hwp.
    rewrite (Hkeys _ _ Hkw) in Hwp. subst k. congruence.
Qed.

Lemma listing_one_sided_witness :
  filter (fun fi => fi_RelativePath fi = "r.txt")
    (GetFileList ex_format mapKeys mapKeys ex_reconcile_engine) =
    [mkInfo "r.txt" "hr" "2025-01-01 00:00:00" "remote"].
Proof.
  apply (proj1 (proj2 (listing_one_sided ex_format mapKeys mapKeys ex_reconcile_engine "r.txt"
                         mapKeys_OrderOK mapKeys_OrderOK)) (mkMeta "r.txt" "hr" 4%Z));
    vm_compute; reflexivity.
Defined.

(* ------------------------------------------------------------------ *)
(** ** Initial state and manual synchronization *)

(** [buildInitialState], the two providers' trees being [localTree] and
    [remoteTree]; it runs without [s.mu]. *)
Definition buildInitialState (localTree remoteTree : node) : M (option GoError) :=
  let* s := get in
  match BuildStateMap s.(localRoot) localTree with
  | inr e => ret (Some e)
  | inl lm =>
      let* _ := modify (setLocalMap lm) in
      match BuildStateMap s.(remoteRoot) remoteTree with
      | inr e => ret (Some (WrapError "failed to build remote state map" e))
      | inl rm =>
          let* _ := modify (setRemoteMap rm) in
          ret None
      end
  end.

(** [ManualSync] *)
Definition ManualSync (ord1 ord2 : StateMap -> list string) (localTree remoteTree : node)
  : M (option GoError) :=
  let* e := buildInitialState localTree remoteTree in
  match e with
  | Some e => ret (Some (WrapError "failed to rebuild state" e))
  | None =>
      let* e := reconcile ord1 ord2 in
      match e with
      | Some e => ret (Some (WrapError "failed to reconcile" e))
      | None => ret None
      end
  end.

(** The paths of the visible regular files of a tree. *)
Definition InScan (tree : node) (k : string) : Prop :=
  exists nm h t, (k, nm, h, t) ∈ files "." tree /\ hidden nm = false.

Lemma BuildStateMap_keys rootPath tree m k :
  BuildStateMap rootPath tree = inl m -> (is_Some (m !! k) <-> InScan tree k).
Proof.
  pose proof (walk_spec rootPath tree "." ∅) as Hw.
  unfold BuildStateMap. destruct (walkNode rootPath "." tree ∅) as [m' | e]; [| discriminate].
  intros H. injection H as <-. destruct Hw as [_ (A & B & _)]. split.
  - intros [v Hv]. destruct (A k v Hv) as [He | (nm & h & t & Hin & Hh & _)].
    + rewrite lookup_empty in He. discriminate.
    + exists nm, h, t. auto.
  - intros (nm & h & t & Hin & Hh). exact (B k nm h t Hin Hh).
Qed.

(** A successful manual synchronization leaves both maps with the same
    paths: exactly the visible regular files (no leading dot in the name,
    at any depth) found by the fresh scans of the two trees. Paths only
    the old maps had are gone. *)
Theorem manual_sync_keys ord1 ord2 (localTree remoteTree : node) (s s' : SyncEngine) (k : string) :
  OrderOK ord1 -> OrderOK ord2 -> s.(mu_held) = false ->
  ManualSync ord1 ord2 localTree remoteTree s = Ret None s' ->
  (is_Some (s'.(localMap) !! k) <-> InScan localTree k \/ InScan remoteTree k) /\
  (is_Some (s'.(remoteMap) !! k) <-> InScan localTree k \/ InScan remoteTree k).
Proof.
  intros Ho1 Ho2 Hm Hr.
  unfold ManualSync, buildInitialState, bind, get, modify, ret in Hr.
  destruct (BuildStateMap (localRoot s) localTree) as [lm | e] eqn:El; [| discriminate].
  destruct (BuildStateMap (remoteRoot s) remoteTree) as [rm | e] eqn:Er; [| discriminate].
  set (s1 := setRemoteMap rm (setLocalMap lm s)) in Hr.
  destruct (reconcile ord1 ord2 s1) as [[e|] s2 | s2] eqn:Hrc; try discriminate.
  injection Hr as <-.
  assert (Hm1 : s1.(mu_held) = false) by exact Hm.
  destruct (reconcile_keys _ _ _ _ k Ho1 Ho2 Hm1 Hrc) as [Hl Hr].
  rewrite Hl, Hr. cbn.
  rewrite (BuildStateMap_keys _ _ _ k El), (BuildStateMap_keys _ _ _ k Er). tauto.
Qed.

(* The remote tree of the examples. *)
Definition ex_remote_tree : node :=
  DirN "remote_data" (FCons (FileN "b.txt" "h3" 4%Z) FNil).

Definition ex_stale_engine : SyncEngine :=
  sampleEngine
    {[ ".DS_Store" := FileF "h0" 1%Z; ".git/config" := FileF "h1" 2%Z; "docs/a.txt" := FileF "h2" 3%Z ]}
    {[ "b.txt" := FileF "h3" 4%Z ]}
    {[ "old.txt" := mkMeta "old.txt" "h9" 1%Z ]} {[ "old.txt" := mkMeta "old.txt" "h9" 1%Z ]}.

Lemma manual_sync_keys_witness :
  exists s', ManualSync mapKeys mapKeys ex_tree ex_remote_tree ex_stale_engine = Ret None s' /\
  (is_Some (s'.(localMap) !! "old.txt") <-> InScan ex_tree "old.txt" \/ InScan ex_remote_tree "old.txt") /\
  (is_Some (s'.(remoteMap) !! "old.txt") <-> InScan ex_tree "old.txt" \/ InScan ex_remote_tree "old.txt").
Proof.
  eexists. split; [vm_compute; reflexivity |].
  apply (manual_sync_keys mapKeys mapKeys ex_tree ex_remote_tree ex_stale_engine _ "old.txt"
           mapKeys_OrderOK mapKeys_OrderOK); [reflexivity | vm_compute; reflexivity].
Defined.

(** When the local scan succeeds but the remote scan fails, a manual
    synchronization returns an error after replacing the local map with
    the fresh local scan, while the remote map keeps its old entries;
    nothing is copied and no reconciliation runs. When the local scan
    fails, it returns an error and changes nothing. *)
Theorem manual_sync_scan_failure ord1 ord2 (localTree remoteTree : node) (s : SyncEngine) :
  (forall e, BuildStateMap s.(localRoot) localTree = inr e ->
     ManualSync ord1 ord2 localTree remoteTree s
       = Ret (Some (WrapError "failed to rebuild state" e)) s) /\
  (forall lm e, BuildStateMap s.(localRoot) localTree = inl lm ->
     BuildStateMap s.(remoteRoot) remoteTree = inr e ->
     ManualSync ord1 ord2 localTree remoteTree s
       = Ret (Some (WrapError "failed to rebuild state"
                      (WrapError "failed to build remote state map" e)))
             (setLocalMap lm s)).
Proof.
  split.
  - intros e El. unfold ManualSync, buildInitialState, bind, get, ret. rewrite El. reflexivity.
  - intros lm e El Er. unfold ManualSync, buildInitialState, bind, get, modify, ret.
    rewrite El. cbn. rewrite Er. reflexivity.
Qed.

Definition ex_bad_remote_tree : node :=
  DirN "remote_data" (FCons (BadDirN "private") FNil).

Lemma manual_sync_scan_failure_witness :
  exists e, BuildStateMap ex_stale_engine.(remoteRoot) ex_bad_remote_tree = inr e /\
  ManualSync mapKeys mapKeys ex_tree ex_bad_remote_tree ex_stale_engine
    = Ret (Some (WrapError "failed to rebuild state"
                   (WrapError "failed to build remote state map" e)))
          (setLocalMap ex_tree_map ex_stale_engine).
Proof.
  eexists. split; [vm_compute; reflexivity |].
  apply (proj2 (manual_sync_scan_failure mapKeys mapKeys ex_tree ex_bad_remote_tree ex_stale_engine));
    vm_compute; reflexivity.
Defined.

(* ------------------------------------------------------------------ *)
(** ** Failing copies *)




Lemma copyFile_file_onto_dir isLocal P mt s h t :
  sideDisk isLocal s !! P = Some (FileF h t) ->
  sideDisk (negb isLocal) s !! P = Some DirF ->
  exists e, copyFile isLocal P mt s = Ret (Some e) (addCopy (isLocal, P) s).
Proof.
  unfold copyFile, FS.GetReader, FS.GetWriter.
  intros Hs Hd. rewrite !sideDisk_addCopy, Hs, Hd. eexists. reflexivity.
Qed.

(** A file create/write/chmod event on [P] that would copy the source
    file (the destination map has no entry, or one with another hash and
    an older time) while the destination side has a directory at [P]
    returns an error; the only trace is the copy attempt: no map entry,
    no file and no notification changes. *)
Theorem newer_file_into_directory_fails (ev : Event) (s : SyncEngine) (isLocal : bool)
    (P h : string) (t : Z) :
  s.(isPaused) = false -> s.(mu_held) = false ->
  determineEventSource s.(localRoot) s.(remoteRoot) ev.(Name) = inl (isLocal, P) ->
  P <> "." ->
  fileWriteKind ev.(Op) = true ->
  sideDisk isLocal s !! P = Some (FileF h t) ->
  sideDisk (negb isLocal) s !! P = Some DirF ->
  (sideMap (negb isLocal) s !! P = None \/
   exists dm, sideMap (negb isLocal) s !! P = Some dm /\ dm.(Hash) <> h /\ (dm.(ModTime) < t)%Z) ->
  exists e, handleEvent ev s = Ret (Some e) (addCopy (isLocal, P) s).
Proof.
  intros Hp Hm Hsrc Hdot Hk Hdisk Hdir Hdst.
  rewrite (handleEvent_dispatch ev s isLocal P Hp Hsrc).
  assert (Hcopy : forall s0, sideDisk isLocal s0 !! P = Some (FileF h t) ->
                    sideDisk (negb isLocal) s0 !! P = Some DirF ->
            exists e, syncFileToDestination isLocal P (mkMeta P h t) s0
                      = Ret (Some e) (addCopy (isLocal, P) s0)).
  { intros s0 H1 H2.
    destruct (copyFile_file_onto_dir isLocal P t s0 h t H1 H2) as [e E].
    exists (WrapError ("error syncing file " ++ P) e).
    unfold syncFileToDestination, bind at 1. cbn [ModTime]. rewrite E. reflexivity. }
  unfold fileWriteKind in Hk.
  destruct (has_op (Op ev) Create) eqn:Ecr.
  - unfold handleCreateEvent, bind at 1, get, os_Stat.
    destruct (String.eqb_spec P "."); [congruence |]. rewrite Hdisk.
    unfold syncFile, bind at 1, get, FS.GetMetadata. rewrite Hdisk.
    rewrite compareAndSync_copy by exact Hdst.
    exact (Hcopy s Hdisk Hdir).
  - cbn in Hk.
    destruct (has_op (Op ev) Remove || has_op (Op ev) Rename); [discriminate |].
    cbn in Hk. rewrite Hk.
    destruct (Hcopy (setMu true s)) as [e E];
      [rewrite sideDisk_setMu; exact Hdisk | rewrite sideDisk_setMu; exact Hdir |].
    exists e. unfold handleWriteOrChmodEvent.
    rewrite (with_mu_ret _ s (Some e) (addCopy (isLocal, P) (setMu true s)) Hm).
    + f_equal. destruct s; cbn in *; subst; reflexivity.
    + unfold bind at 1, get, FS.GetMetadata. rewrite sideDisk_setMu, Hdisk.
      rewrite compareAndSync_copy; [exact E |].
      rewrite sideMap_setMu. exact Hdst.
Qed.

Definition ex_file_vs_dir_engine : SyncEngine :=
  sampleEngine {[ "photos" := FileF "h1" 5%Z ]} {[ "photos" := DirF ]} ∅ ∅.

Lemma newer_file_into_directory_fails_witness :
  exists e, handleEvent (mkEvent "/srv/local_data/photos" Write) ex_file_vs_dir_engine
            = Ret (Some e) (addCopy (true, "photos") ex_file_vs_dir_engine).
Proof.
  apply (newer_file_into_directory_fails _ _ true "photos" "h1" 5%Z); try reflexivity; try discriminate.
  left. reflexivity.
Defined.
